(** * ae_measure2: clipped-signal filtering, channel selection and the
      frequency-domain feature pipeline

    Shallow embedding of [src/ae_measure2.py].

    Numbers.  Every finite double is a rational.  The samples of the clipping
    and selection routines, and the scalars with which [wave2vec] keeps its
    books (the upsampled grid, its step, the band edges and the coverage
    check) are doubles: rationals in [Q], every arithmetic operation on them
    rounded to binary64 ([binary64]); all of it computes.  The spectral
    values (transform magnitudes, interpolated values, Simpson masses and the
    normalised vector) go through cosines, sines and square roots, so they are
    real numbers in [R] (exact arithmetic).  An overflow to an infinity and
    the sign of a zero are not represented; the statements that depend on
    rounded values say for which magnitudes they hold.

    Exceptions.  Python code raises; the embedding returns a [result], and the
    exceptions that NumPy and SciPy raise on the inputs the code hands them
    (empty arrays, indices out of range) are part of the model.

    Files.  [read_ae_file2] and [filter_ae] are modelled from the parsed data
    on: the data lines as lists of numbers, the CSV column as a list of
    integers.  [load_PLB] and [eigenDecomposition] are not modelled. *)

From Stdlib Require Import String.
From Stdlib Require Import List ZArith QArith Qround Qabs Bool Arith Lia.
From Stdlib Require Import Sorted.
From Stdlib Require Import Reals Qreals Lra.
Import ListNotations.


(** ** Exceptions and results *)

Inductive exn : Type :=
| ValueError (msg : string)
| IndexError
| UnboundLocalError (name : string)
| ZeroDivisionError.

Inductive result (A : Type) : Type :=
| Ok (a : A)
| Raise (e : exn).

Arguments Ok {A} a.
Arguments Raise {A} e.

Definition bind {A B : Type} (m : result A) (k : A -> result B) : result B :=
  match m with
  | Ok a => k a
  | Raise e => Raise e
  end.

Notation "x <- m ;; k" := (bind m (fun x => k))
  (at level 100, m at next level, right associativity).

(** [l[i]] for a non-negative index. *)
Definition getitem {A : Type} (l : list A) (i : nat) : result A :=
  match nth_error l i with
  | Some x => Ok x
  | None => Raise IndexError
  end.

(** [for i in idx: s = body(s, i)], stopping at the first exception. *)
Fixpoint for_each {S : Type} (body : S -> nat -> result S)
    (idx : list nat) (s : S) : result S :=
  match idx with
  | [] => Ok s
  | i :: rest => s' <- body s i ;; for_each body rest s'
  end.

(** A local variable that may not have been assigned yet. *)
Definition load {A : Type} (name : string) (v : option A) : result A :=
  match v with
  | Some x => Ok x
  | None => Raise (UnboundLocalError name)
  end.

(** ** Doubles *)

Section Doubles.
Local Open Scope Q_scope.

(** Round half to even, as [numpy.rint]. *)
Definition rint (x : Q) : Z :=
  let n := Qfloor x in
  match Qcompare (x - inject_Z n) (1 # 2) with
  | Lt => n
  | Gt => (n + 1)%Z
  | Eq => if Z.even n then n else (n + 1)%Z
  end.

(** [floor(log2 x)] for a positive rational. *)
Definition Qlog2 (x : Q) : Z :=
  let k := (Z.log2 (Qnum x) - Z.log2 (Zpos (Qden x)))%Z in
  if Qle_bool (2 ^ k) x then k else (k - 1)%Z.

(** The double nearest to [x]: a significand of 53 bits, exponents from
    -1074 on, ties to the even significand (IEEE 754 binary64, rounding to
    nearest).  The result is a reduced fraction.  There is no largest
    exponent here: a result of magnitude 2^1024 or more stands where the
    machine has an infinity. *)
Definition binary64 (x : Q) : Q :=
  let x := Qred x in
  if Qeq_bool x 0 then 0
  else
    let e := Z.max (Qlog2 (Qabs x) - 52) (-1074) in
    Qred (inject_Z (rint (x / 2 ^ e)) * 2 ^ e).

(** The arithmetic of doubles: the exact result, rounded. *)
Definition fadd (a b : Q) : Q := binary64 (a + b).
Definition fsub (a b : Q) : Q := binary64 (a - b).
Definition fmul (a b : Q) : Q := binary64 (a * b).
Definition fdiv (a b : Q) : Q := binary64 (a / b).

(** Division of Python floats. *)
Definition py_div (a b : Q) : result Q :=
  if Qeq_bool b 0 then Raise ZeroDivisionError else Ok (fdiv a b).

(** A quotient of two doubles as NumPy computes it: a zero divisor does not
    raise, it gives an infinity, or nan for 0/0. *)
Inductive float64 : Type :=
| finite (q : Q)
| infinite (negative : bool)
| nan.

Definition np_true_divide (x y : Q) : float64 :=
  if Qeq_bool y 0 then
    if Qeq_bool x 0 then nan else infinite (negb (Qle_bool 0 x))
  else finite (fdiv x y).

(** [a > b] for a double [b]; a comparison with nan is false. *)
Definition float64_gt (a : float64) (b : Q) : bool :=
  match a with
  | finite q => negb (Qle_bool q b)
  | infinite negative => negb negative
  | nan => false
  end.

(** Entry [i] of [np.linspace(start, stop, num)] with the end point
    included, in binary64: [arange(num) * step + start] with
    [step = (stop - start) / (num - 1)], the last entry replaced by [stop];
    when the step rounds to zero NumPy divides first and multiplies then. *)
Definition linspace_entry (start stop : Q) (num : Z) (i : nat) : Q :=
  let n := Z.to_nat num in
  let div := inject_Z (num - 1) in
  let delta := fsub stop start in
  let step := fdiv delta div in
  let x := inject_Z (Z.of_nat i) in
  if ((i =? n - 1)%nat && (1 <? n)%nat)%bool then stop
  else
    fadd (if (num - 1 <=? 0)%Z then fmul x delta
          else if Qeq_bool step 0 then fmul (fdiv x div) delta
          else fmul x step)
         start.

(** [np.linspace(start, stop, num)]; the message of the error is NumPy's
    format string. *)
Definition np_linspace (start stop : Q) (num : Z) : result (list Q) :=
  if (num <? 0)%Z then
    Raise (ValueError "Number of samples, %s, must be non-negative.")
  else Ok (map (linspace_entry start stop num) (seq 0 (Z.to_nat num))).

End Doubles.

(** ** Clipping detection and channel selection (samples in [Q]) *)

Section Clipping.
Local Open Scope Q_scope.

Definition waveform := list Q.

Definition np_abs (sig : waveform) : waveform := map Qabs sig.

(** [numpy.round(x, decimals)] on doubles: NumPy multiplies by
    [10**decimals], rounds to the nearest integer and divides again, each
    step in binary64. *)
Definition np_round (decimals : nat) (x : Q) : Q :=
  let scale := inject_Z (10 ^ Z.of_nat decimals) in
  fdiv (inject_Z (rint (fmul x scale))) scale.

(** The running maximum that both [numpy.max] and the builtin [max] compute:
    the current value is replaced only by a strictly larger one. *)
Definition running_max (x : Q) (xs : list Q) : Q :=
  fold_left (fun m y => if Qle_bool y m then m else y) xs x.

Definition np_max (l : list Q) : result Q :=
  match l with
  | [] => Raise (ValueError
      "zero-size array to reduction operation maximum which has no identity")
  | x :: xs => Ok (running_max x xs)
  end.

Definition py_max (l : list Q) : result Q :=
  match l with
  | [] => Raise (ValueError "max() arg is an empty sequence")
  | x :: xs => Ok (running_max x xs)
  end.

(** [is_clipped], lines 85-98.  The rounded array is used for the maximum
    only: [sig[np.where(sig==max)]] selects from the unrounded magnitudes. *)
Definition is_clipped (sig : waveform) : result bool :=
  let sig := np_abs sig in
  max <- np_max (map (np_round 2) sig) ;;
  let sig := filter (fun s => Qeq_bool s max) sig in
  Ok (1 <? length sig)%nat.

(** The detector as section 4.1 of the specification words it: the samples
    counted are the rounded ones.  Used only to compare with [is_clipped]. *)
Definition is_clipped_as_specified (sig : waveform) : result bool :=
  let rounded := map (np_round 2) (np_abs sig) in
  max <- np_max rounded ;;
  Ok (1 <? length (filter (fun s => Qeq_bool s max) rounded))%nat.

(** The local accumulators of [remove_clipped].  [holder4] is assigned in the
    timestamp branch only. *)
Record holders : Type := mkHolders {
  holder1 : list waveform;
  holder2 : list waveform;
  holder3 : list Z;
  holder4 : option (list Q)
}.

(** [is_clipped(v1[i]) and is_clipped(v2[i])], with Python's short circuit. *)
Definition both_clipped (v1 v2 : list waveform) (i : nat) : result bool :=
  a <- getitem v1 i ;;
  ca <- is_clipped a ;;
  if ca then (b <- getitem v2 i ;; is_clipped b) else Ok false.

(** The loop body, textually the same in both branches (lines 116-122 and
    129-135). *)
Definition remove_clipped_body (v1 v2 : list waveform) (ev : list Z)
    (time : list Q) (h : holders) (i : nat) : result holders :=
  both <- both_clipped v1 v2 i ;;
  if both then Ok h
  else
    a <- getitem v1 i ;;
    b <- getitem v2 i ;;
    e <- getitem ev i ;;
    h4 <- load "holder4" (holder4 h) ;;
    t <- getitem time i ;;
    Ok (mkHolders (holder1 h ++ [a]) (holder2 h ++ [b]) (holder3 h ++ [e])
                  (Some (h4 ++ [t]))).

(** What [remove_clipped] returns: a 4-tuple or a 3-tuple. *)
Inductive filtered : Type :=
| Ret4 (a b : list waveform) (ev : list Z) (time : list Q)
| Ret3 (a b : list waveform) (ev : list Z).

(** [remove_clipped], lines 100-136.  Absent timestamps are the default [[]]. *)
Definition remove_clipped (v1 v2 : list waveform) (ev : list Z)
    (time : list Q) : result filtered :=
  if negb (length time =? 0)%nat then
    h <- for_each (remove_clipped_body v1 v2 ev time)
           (seq 0 (length v1)) (mkHolders [] [] [] (Some [])) ;;
    h4 <- load "holder4" (holder4 h) ;;
    Ok (Ret4 (holder1 h) (holder2 h) (holder3 h) h4)
  else
    h <- for_each (remove_clipped_body v1 v2 ev time)
           (seq 0 (length v1)) (mkHolders [] [] [] None) ;;
    Ok (Ret3 (holder1 h) (holder2 h) (holder3 h)).

(** Feeding an output of [remove_clipped] back into it. *)
Definition refilter (out : filtered) : result filtered :=
  match out with
  | Ret4 a b ev time => remove_clipped a b ev time
  | Ret3 a b ev => remove_clipped a b ev []
  end.

(** [max_sig], lines 145-159. *)
Definition max_sig (signal1 signal2 : waveform) : result waveform :=
  p1 <- py_max (np_abs signal1) ;;
  p2 <- py_max (np_abs signal2) ;;
  match Qcompare p1 p2 with
  | Gt => Ok signal1
  | _ => Ok signal2
  end.

(** [min_sig], lines 162-176. *)
Definition min_sig (signal1 signal2 : waveform) : result waveform :=
  p1 <- py_max (np_abs signal1) ;;
  p2 <- py_max (np_abs signal2) ;;
  match Qcompare p1 p2 with
  | Gt => Ok signal2
  | _ => Ok signal1
  end.

End Clipping.

(** ** Spectrum and feature vector (samples in [R], bookkeeping in doubles) *)

Section Spectral.
Local Open Scope R_scope.

Definition signal := list R.

Definition Rsum (l : list R) : R := fold_right Rplus 0 l.

Definition Rleb (x y : R) : bool := if Rle_dec x y then true else false.
Definition Rltb (x y : R) : bool := if Rlt_dec x y then true else false.

(** Real and imaginary part of the [k]-th coefficient of the discrete Fourier
    transform of [y]. *)
Definition dft_re (y : signal) (k : nat) : R :=
  Rsum (map (fun p => snd p * cos (2 * PI * INR k * INR (fst p) / INR (length y)))
            (combine (seq 0 (length y)) y)).

Definition dft_im (y : signal) (k : nat) : R :=
  Rsum (map (fun p => - (snd p * sin (2 * PI * INR k * INR (fst p) / INR (length y))))
            (combine (seq 0 (length y)) y)).

(** [np.abs(np.fft.fft(y))]; NumPy refuses an empty input. *)
Definition np_abs_fft (y : signal) : result (list R) :=
  match y with
  | [] => Raise (ValueError "Invalid number of FFT data points (0) specified.")
  | _ :: _ =>
      Ok (map (fun k => sqrt (Rsqr (dft_re y k) + Rsqr (dft_im y k)))
              (seq 0 (length y)))
  end.

(** [np.fft.fftfreq(n, d)]: [val = 1.0/(n*d)], the first [(n-1)//2 + 1]
    entries are [0, 1, ...], the others [-(n//2), ..., -1], all times [val]. *)
Definition np_fftfreq (n : nat) (d : R) : result (list R) :=
  if Req_dec_T (INR n * d) 0 then Raise ZeroDivisionError
  else
    let val := 1 / (INR n * d) in
    let N := ((n - 1) / 2 + 1)%nat in
    Ok (map (fun i => IZR (if (i <? N)%nat then Z.of_nat i
                           else Z.of_nat i - Z.of_nat n) * val)
            (seq 0 n)).

(** [np.where(mask)]: the indices at which the mask holds. *)
Fixpoint np_where_from (i : nat) (mask : list bool) : list nat :=
  match mask with
  | [] => []
  | b :: rest =>
      if b then i :: np_where_from (S i) rest else np_where_from (S i) rest
  end.

Definition np_where (mask : list bool) : list nat := np_where_from 0 mask.

(** [a[idx]] for an index array. *)
Fixpoint take {A : Type} (a : list A) (idx : list nat) : result (list A) :=
  match idx with
  | [] => Ok []
  | i :: rest => x <- getitem a i ;; xs <- take a rest ;; Ok (x :: xs)
  end.

(** One band limit of [fft]: [z = z[np.where(keep w)]] and then
    [w = w[np.where(keep w)]] (lines 202-203 and 205-206). *)
Definition band_limit (keep : R -> bool) (wz : list R * list R)
    : result (list R * list R) :=
  z <- take (snd wz) (np_where (map keep (fst wz))) ;;
  w <- take (fst wz) (np_where (map keep (fst wz))) ;;
  Ok (w, z).

(** [fft], lines 183-208.  Line 198 overwrites [w] before line 199 builds the
    mask for [z], so that mask is computed from the frequencies already
    kept. *)
Definition fft (dt : R) (y : signal) (low_pass high_pass : option R)
    : result (list R * list R) :=
  z <- np_abs_fft y ;;
  w <- np_fftfreq (length z) dt ;;
  w <- take w (np_where (map (fun f => Rleb 0 f) w)) ;;
  z <- take z (np_where (map (fun f => Rleb 0 f) w)) ;;
  wz <- match low_pass with
        | Some lo => band_limit (fun f => Rltb lo f) (w, z)
        | None => Ok (w, z)
        end ;;
  match high_pass with
  | Some hi => band_limit (fun f => Rltb f hi) wz
  | None => Ok wz
  end.

(** Piecewise-linear interpolation through the points [(x0, f0) :: rest] for
    an abscissa to the right of [x0]. *)
Fixpoint interp_scan (x x0 f0 : R) (rest : list (R * R)) : R :=
  match rest with
  | [] => f0
  | (x1, f1) :: rest' =>
      if Rlt_dec x x1 then f0 + (f1 - f0) / (x1 - x0) * (x - x0)
      else interp_scan x x1 f1 rest'
  end.

Definition interp_at (pts : list (R * R)) (x : R) : R :=
  match pts with
  | [] => 0
  | (x0, f0) :: rest => if Rle_dec x x0 then f0 else interp_scan x x0 f0 rest
  end.

(** [np.interp(x, xp, fp)] for ascending sample points [xp]: linear between
    the points, the edge values outside.  (For sample points that do not
    ascend NumPy documents its result as meaningless.) *)
Definition np_interp (x xp fp : list R) : result (list R) :=
  match xp with
  | [] => Raise (ValueError "array of sample points is empty")
  | _ :: _ =>
      if (length fp =? length xp)%nat then
        Ok (map (interp_at (combine xp fp)) x)
      else Raise (ValueError "fp and xp are not of the same length.")
  end.

(** Simpson's rule over consecutive triples of unit-spaced samples. *)
Fixpoint basic_simps (y : list R) : R :=
  match y with
  | a :: b :: ((c :: _) as rest) => 1 / 3 * (a + 4 * b + c) + basic_simps rest
  | _ => 0
  end.

(** [scipy.integrate.simps(y)] ([dx = 1], [even = 'avg']): Simpson's rule for
    an odd number of samples; for an even number the mean of the two rules
    that put a trapezoid on the last and on the first interval.  An empty
    array is indexed at [-1] and raises. *)
Definition simps (y : list R) : result R :=
  match y with
  | [] => Raise IndexError
  | _ :: _ =>
      if Nat.even (length y) then
        let val := 1 / 2 * (nth (length y - 1) y 0 + nth (length y - 2) y 0)
                   + 1 / 2 * (nth 1 y 0 + nth 0 y 0) in
        let res := basic_simps y + basic_simps (tl y) in
        Ok (res / 2 + val / 2)
      else Ok (basic_simps y)
  end.

(** [l[a:b]] for non-negative bounds. *)
Definition py_slice {A : Type} (l : list A) (a b : nat) : list A :=
  skipn a (firstn b l).

(** An entry of a float array that was divided by a scalar: NumPy does not
    raise on a zero divisor, it stores a non-finite value. *)
Inductive npfloat : Type :=
| Fin (r : R)
| NaN
| PosInf
| NegInf.

Definition np_div (x s : R) : npfloat :=
  if Req_dec_T s 0 then
    if Req_dec_T x 0 then NaN else if Rlt_dec 0 x then PosInf else NegInf
  else Fin (x / s).

(** The local variables of [wave2vec] that outlive the loop.  The masses are
    real numbers; the grid step and the band edges are doubles. *)
Record locals : Type := mkLocals {
  feature_vector : list R;
  true_bounds : list Q;
  j : option Z;
  dw : Q;
  interval_width : Z
}.

(** Lines 299-303, one pass of [for j in range(dims)].  The band edge
    [lower/FFT_units+j*interval_width*dw] is computed in binary64: the
    integer product is converted to a double, multiplied by [dw] and added to
    the quotient. *)
Definition wave2vec_body (upsampled_z : list R) (lower FFT_units : Q)
    (s : locals) (i : nat) : result locals :=
  let jz := Z.of_nat i in
  let subinterval :=
    py_slice upsampled_z (Z.to_nat (jz * interval_width s))
                         (Z.to_nat ((jz + 1) * interval_width s)) in
  sub_int_mass <- simps subinterval ;;
  lo <- py_div lower FFT_units ;;
  Ok (mkLocals (feature_vector s ++ [sub_int_mass])
               (true_bounds s
                ++ [fadd lo (fmul (binary64 (inject_Z (jz * interval_width s)))
                                  (dw s))])
               (Some jz) (dw s) (interval_width s)).

(** Lines 287-303: spectrum, upsampling and the integration loop.  The grid
    [upsampled_w] is computed in binary64 and enters the interpolation with
    the values its doubles have.  The two array divisions by [FFT_units]
    (lines 289 and 291) do not raise on a zero divisor; the scalar division
    of line 303 does, in the first pass of the loop, so the values those
    arrays would hold are never returned.  [int(len(upsampled_z)/dims)]
    truncates a quotient of integers; its rounding to a double changes
    nothing for arrays of fewer than 2^52 entries. *)
Definition wave2vec_integrate (dt : R) (waveform : signal) (lower upper : Q)
    (dims : Z) (FFT_units : Q) (upsample : Z) : result locals :=
  wz <- fft dt waveform (Some (Q2R lower)) (Some (Q2R upper)) ;;
  let w := map (fun f => f / Q2R FFT_units) (fst wz) in
  let z := snd wz in
  grid <- np_linspace lower upper upsample ;;
  let upsampled_w := map (fun f => fdiv f FFT_units) grid in
  upsampled_z <- np_interp (map Q2R upsampled_w) w z ;;
  w1 <- getitem upsampled_w 1 ;;
  w0 <- getitem upsampled_w 0 ;;
  width <- (if (dims =? 0)%Z then Raise ZeroDivisionError
            else Ok (Z.quot (Z.of_nat (length upsampled_z)) dims)) ;;
  for_each (wave2vec_body upsampled_z lower FFT_units)
           (seq 0 (Z.to_nat dims))
           (mkLocals [] [] None (fsub w1 w0) width).

(** Lines 305-312: bounds, the coverage check and the normalisation.  [j] is
    unbound when the loop made no pass.  The bounds and the check are
    computed in binary64; the quotient of line 309 has a NumPy double as its
    dividend, so a zero divisor there gives an infinity or nan. *)
Definition wave2vec_finish (lower upper FFT_units : Q) (s : locals)
    : result (list npfloat * list Q * Q) :=
  jz <- load "j" (j s) ;;
  lo <- py_div lower FFT_units ;;
  let true_upper_bound :=
    fadd (fmul (binary64 (inject_Z ((jz + 1) * interval_width s))) (dw s))
         lo in
  let spacing := fmul (binary64 (inject_Z (interval_width s))) (dw s) in
  up <- py_div upper FFT_units ;;
  if float64_gt (np_true_divide (fsub up true_upper_bound) (fsub up lo))
                (binary64 (1 # 100)) then
    Raise (ValueError "Increase upsampling number")
  else
    Ok (map (fun m => np_div m (Rsum (feature_vector s))) (feature_vector s),
        true_bounds s, spacing).

(** [wave2vec], lines 276-312. *)
Definition wave2vec (dt : R) (waveform : signal) (lower upper : Q)
    (dims : Z) (FFT_units : Q) (upsample : Z)
    : result (list npfloat * list Q * Q) :=
  s <- wave2vec_integrate dt waveform lower upper dims FFT_units upsample ;;
  wave2vec_finish lower upper FFT_units s.

(** The sum that line 312 divides by. *)
Definition mass_sum (dt : R) (waveform : signal) (lower upper : Q)
    (dims : Z) (FFT_units : Q) (upsample : Z) : result R :=
  s <- wave2vec_integrate dt waveform lower upper dims FFT_units upsample ;;
  Ok (Rsum (feature_vector s)).

End Spectral.

(** ** The filter of [remove_clipped] on the zipped sequences *)

Section ClippingSpec.

(** One event: channel 1, channel 2, event number, timestamp. *)
Definition entry : Type := (waveform * waveform * Z * Q)%type.

Definition zip4 (v1 v2 : list waveform) (ev : list Z) (time : list Q)
    : list entry :=
  combine (combine (combine v1 v2) ev) time.

Definition chan1 (x : entry) : waveform := fst (fst (fst x)).
Definition chan2 (x : entry) : waveform := snd (fst (fst x)).
Definition event (x : entry) : Z := snd (fst x).
Definition stamp (x : entry) : Q := snd x.

(** The condition of lines 116 and 129 on one event. *)
Definition pair_clipped (a b : waveform) : result bool :=
  ca <- is_clipped a ;;
  if ca then is_clipped b else Ok false.

(** Events in order, those with both channels clipped left out. *)
Fixpoint survivors (l : list entry) : result (list entry) :=
  match l with
  | [] => Ok []
  | x :: rest =>
      both <- pair_clipped (chan1 x) (chan2 x) ;;
      r <- survivors rest ;;
      Ok (if both then r else x :: r)
  end.

(** Appending events to the four accumulators. *)
Definition extend (h : holders) (h4 : list Q) (r : list entry) : holders :=
  mkHolders (holder1 h ++ map chan1 r) (holder2 h ++ map chan2 r)
            (holder3 h ++ map event r) (Some (h4 ++ map stamp r)).

(** [p] is the peak absolute amplitude of [sig]: a magnitude of one of its
    samples that no other magnitude exceeds. *)
Definition peak (sig : waveform) (p : Q) : Prop :=
  In p (np_abs sig) /\ forall s, In s (np_abs sig) -> (s <= p)%Q.

End ClippingSpec.

(** ** What [fft] keeps *)

Section SpectralSpec.
Local Open Scope R_scope.

(** The tests of lines 198-206 on one frequency. *)
Definition fft_keeps (low_pass high_pass : option R) (f : R) : bool :=
  Rleb 0 f
  && match low_pass with Some lo => Rltb lo f | None => true end
  && match high_pass with Some hi => Rltb f hi | None => true end.

(** Frequency [i] of an [n]-point transform with sample spacing [d]. *)
Definition bin_frequency (n : nat) (d : R) (i : nat) : R :=
  IZR (if (i <? (n - 1) / 2 + 1)%nat then Z.of_nat i
       else Z.of_nat i - Z.of_nat n) * (1 / (INR n * d)).

(** Magnitude of coefficient [k] of the transform of [y]. *)
Definition bin_magnitude (y : signal) (k : nat) : R :=
  sqrt (Rsqr (dft_re y k) + Rsqr (dft_im y k)).

(** The unmasked spectrum as index-aligned pairs (frequency, magnitude). *)
Definition full_spectrum (dt : R) (y : signal) : list (R * R) :=
  map (fun i => (bin_frequency (length y) dt i, bin_magnitude y i))
      (seq 0 (length y)).

End SpectralSpec.

(** ** The coverage check of [wave2vec] as the specification words it *)

Section CoverageSpec.
Local Open Scope Q_scope.

(** The step of the upsampled grid, [upsampled_w[1] - upsampled_w[0]]. *)
Definition grid_step (lower upper FFT_units : Q) (upsample : Z) : Q :=
  fsub (fdiv (linspace_entry lower upper upsample 1) FFT_units)
       (fdiv (linspace_entry lower upper upsample 0) FFT_units).

(** Upper edge of the last window, in rescaled frequency units:
    [lower/FFT_units + dims * floor(upsample/dims) * dw]. *)
Definition true_upper_bound (lower upper : Q) (dims : Z) (FFT_units : Q)
    (upsample : Z) : Q :=
  fadd (fdiv lower FFT_units)
       (fmul (binary64 (inject_Z (dims * (upsample / dims))))
             (grid_step lower upper FFT_units upsample)).

(** Part of the requested band that the windows leave uncovered. *)
Definition coverage_gap (lower upper : Q) (dims : Z) (FFT_units : Q)
    (upsample : Z) : float64 :=
  np_true_divide
    (fsub (fdiv upper FFT_units)
          (true_upper_bound lower upper dims FFT_units upsample))
    (fsub (fdiv upper FFT_units) (fdiv lower FFT_units)).

(** Magnitudes for which no operation of the bookkeeping overflows or
    underflows. *)
Definition moderate (x : Q) : Prop :=
  x == 0 \/ (2 ^ (-300) <= Qabs x /\ Qabs x <= 2 ^ 300).

(** Band edge [k]: [lower/FFT_units + k * floor(upsample/dims) * dw]. *)
Definition band_edge (lower upper : Q) (dims : Z) (FFT_units : Q)
    (upsample : Z) (k : nat) : Q :=
  fadd (fdiv lower FFT_units)
       (fmul (binary64 (inject_Z (Z.of_nat k * (upsample / dims))))
             (grid_step lower upper FFT_units upsample)).

End CoverageSpec.

(** ** Amplitude scaling *)

Section ScalingSpec.
Local Open Scope R_scope.

(** [c * waveform]. *)
Definition scale (c : R) (l : list R) : list R := map (Rmult c) l.


End ScalingSpec.

(** ** Reading signals and selecting events *)

Section Acquisition.
Local Open Scope Q_scope.

(** [range(0, stop, step)]. *)
Definition py_range_step (stop : nat) (step : Z) : result (list nat) :=
  if (step =? 0)%Z then Raise (ValueError "range() arg 3 must not be zero")
  else if (step <? 0)%Z then Ok []
  else
    let s := Z.to_nat step in
    Ok (map (fun k => (k * s)%nat) (seq 0 ((stop + s - 1) / s))).

(** The list comprehension of lines 57-58 on the data lines of the file
    (the lines after the header), each given as its numeric fields: field
    [channel_num] of every line.  Reading the file, splitting a line and
    parsing a number are not part of the model. *)
Fixpoint column (rows : list (list Q)) (channel_num : nat) : result (list Q) :=
  match rows with
  | [] => Ok []
  | row :: rest =>
      x <- getitem row channel_num ;;
      xs <- column rest channel_num ;;
      Ok (x :: xs)
  end.

(** [read_ae_file2], lines 45-65, from the data lines on. *)
Definition read_ae_file2 (rows : list (list Q)) (channel_num : nat)
    (sig_length : Z) : result (list waveform * list Z) :=
  v1 <- column rows channel_num ;;
  idx <- py_range_step (length v1) sig_length ;;
  let sig := map (fun i => py_slice v1 i (i + Z.to_nat sig_length)) idx in
  let ev := map (fun k => (Z.of_nat k + 1)%Z) (seq 0 (length sig)) in
  Ok (sig, ev).

(** [a[idx]] for an array of integer indices: a negative index counts from the
    end, an index outside [-len(a), len(a))] raises. *)
Fixpoint np_take_wrap {A : Type} (a : list A) (idx : list Z)
    : result (list A) :=
  match idx with
  | [] => Ok []
  | k :: rest =>
      x <- (if (k <? 0)%Z
            then (if (k + Z.of_nat (length a) <? 0)%Z then Raise IndexError
                  else getitem a (Z.to_nat (k + Z.of_nat (length a))))
            else getitem a (Z.to_nat k)) ;;
      xs <- np_take_wrap a rest ;;
      Ok (x :: xs)
  end.

(** [filter_ae], lines 68-80, with the [Event] column of the CSV file given as
    the integers [ev].  [np.array(v1)] is indexed by signal; a last signal
    shorter than the others makes it an array of arrays in the NumPy of the
    file's date.  A column without entries is not read as integers, and NumPy
    refuses it as an index. *)
Definition filter_ae (rows : list (list Q)) (ev : list Z) (channel_num : nat)
    (sig_length : Z) : result (list waveform * list Z) :=
  r <- read_ae_file2 rows channel_num sig_length ;;
  v1 <- match ev with
        | [] => Raise IndexError
        | _ :: _ => np_take_wrap (fst r) (map (fun e => (e - 1)%Z) ev)
        end ;;
  Ok (v1, ev).

(** Whether [is_clipped] returns [True]. *)
Definition clipped (sig : waveform) : bool :=
  match is_clipped sig with
  | Ok b => b
  | Raise _ => false
  end.

End Acquisition.

(** ** Spectral centroid *)

Section Centroid.
Local Open Scope R_scope.

(** [a * b] for two one-dimensional arrays: element by element, an array of
    one element being repeated along the other.  NumPy's message goes on with
    the two shapes. *)
Definition np_mul (a b : list R) : result (list R) :=
  if (length a =? length b)%nat then
    Ok (map (fun p => fst p * snd p) (combine a b))
  else
    match a, b with
    | [x], _ => Ok (map (fun y => x * y) b)
    | _, [y] => Ok (map (fun x => x * y) a)
    | _, _ => Raise (ValueError "operands could not be broadcast together")
    end.

(** [get_freq_centroid], lines 210-220.  The division is NumPy's: a zero
    divisor gives a non-finite value. *)
Definition get_freq_centroid (w z : list R) : result npfloat :=
  zw <- np_mul z w ;;
  Ok (np_div (Rsum zw) (Rsum z)).

End Centroid.

(** * Facts about the result monad and the loops *)

Lemma bind_Ok_inv {A B : Type} (m : result A) (k : A -> result B) (b : B) :
  bind m k = Ok b -> exists a, m = Ok a /\ k a = Ok b.
Proof.
  destruct m as [a|e]; simpl; intros H; [eauto | discriminate].
Qed.

Lemma Ok_inj {A : Type} (a b : A) : Ok a = Ok b -> a = b.
Proof. intros H. injection H as H. exact H. Qed.

Lemma getitem_app_at {A : Type} (pre : list A) (x : A) (post : list A)
    (i : nat) :
  i = length pre -> getitem (pre ++ x :: post) i = Ok x.
Proof.
  intros ->. unfold getitem. rewrite nth_error_app2 by lia.
  rewrite Nat.sub_diag. reflexivity.
Qed.

(** * Clipping detection *)

Section ClippingFacts.
Local Open Scope Q_scope.

Lemma running_max_repeat (r : Q) (n : nat) : running_max r (repeat r n) = r.
Proof.
  unfold running_max. induction n as [|n IH]; simpl; [reflexivity|].
  destruct (Qle_bool r r); exact IH.
Qed.

Lemma filter_repeat_none {A : Type} (p : A -> bool) (a : A) (n : nat) :
  p a = false -> filter p (repeat a n) = [].
Proof.
  intros Hp. induction n as [|n IH]; simpl; [reflexivity|].
  rewrite Hp. exact IH.
Qed.

Lemma Qeq_bool_false (x y : Q) : ~ y == x -> Qeq_bool x y = false.
Proof.
  intros Hne. destruct (Qeq_bool x y) eqn:E; [|reflexivity].
  apply Qeq_bool_iff in E. exfalso. apply Hne. symmetry. exact E.
Qed.

(** A flat waveform whose level [np.round] changes: the rounded maximum is
    matched by no sample. *)
Lemma is_clipped_flat (v : Q) (n : nat) :
  (1 <= n)%nat -> ~ np_round 2 (Qabs v) == Qabs v ->
  filter (fun s => Qeq_bool s (np_round 2 (Qabs v))) (np_abs (repeat v n)) = []
  /\ is_clipped (repeat v n) = Ok false.
Proof.
  intros Hn Hne.
  assert (Hf : filter (fun s => Qeq_bool s (np_round 2 (Qabs v)))
                 (np_abs (repeat v n)) = []).
  { unfold np_abs. rewrite map_repeat.
    apply filter_repeat_none. apply Qeq_bool_false. exact Hne. }
  split; [exact Hf|].
  unfold is_clipped. destruct n as [|n]; [lia|].
  unfold np_abs in *. rewrite !map_repeat in *. simpl repeat at 1.
  cbn [np_max bind]. rewrite running_max_repeat.
  rewrite Hf. reflexivity.
Qed.

Lemma running_max_spec (xs : list Q) :
  forall x : Q,
    In (running_max x xs) (x :: xs)
    /\ forall y, In y (x :: xs) -> y <= running_max x xs.
Proof.
  unfold running_max. induction xs as [|a xs IH]; intros x; cbn [fold_left].
  - split; [left; reflexivity|]. intros y [<-|[]]. apply Qle_refl.
  - destruct (Qle_bool a x) eqn:E.
    + destruct (IH x) as [Hin Hub]. split.
      * destruct Hin as [Hin|Hin]; [left; exact Hin | right; right; exact Hin].
      * intros y [<-|[<-|Hy]].
        -- apply Hub. left. reflexivity.
        -- apply Qle_bool_iff in E. apply (Qle_trans _ x); [exact E|].
           apply Hub. left. reflexivity.
        -- apply Hub. right. exact Hy.
    + destruct (IH a) as [Hin Hub]. split.
      * right. exact Hin.
      * assert (Hxa : x <= a).
        { destruct (Qlt_le_dec x a) as [H|H]; [apply Qlt_le_weak; exact H|].
          apply Qle_bool_iff in H. congruence. }
        intros y [<-|[<-|Hy]].
        -- apply (Qle_trans _ a); [exact Hxa|]. apply Hub. left. reflexivity.
        -- apply Hub. left. reflexivity.
        -- apply Hub. right. exact Hy.
Qed.

Lemma py_max_peak (sig : waveform) (p : Q) :
  py_max (np_abs sig) = Ok p ->
  (exists y, In y sig /\ p = Qabs y) /\ forall x, In x sig -> Qabs x <= p.
Proof.
  destruct sig as [|a sig]; [discriminate|].
  cbn [np_abs map py_max]. intros H. apply Ok_inj in H. subst p.
  destruct (running_max_spec (map Qabs sig) (Qabs a)) as [Hin Hub]. split.
  - change (Qabs a :: map Qabs sig) with (map Qabs (a :: sig)) in Hin.
    apply in_map_iff in Hin. destruct Hin as (y & Hy & Hiny).
    exists y. split; [exact Hiny | symmetry; exact Hy].
  - intros x Hx. apply Hub.
    change (Qabs a :: map Qabs sig) with (map Qabs (a :: sig)).
    apply in_map. exact Hx.
Qed.

(** On doubles that [np.round] leaves as they are the count is over the
    samples at the peak: the flat waveform at the double 0.1 is reported as
    clipped, and so is [0.575, 0.57, 0.57], whose first sample rounds down to
    0.57 because 0.575 * 100 is 57.49999999999999 in binary64. *)
Lemma is_clipped_on_doubles :
  np_round 2 (binary64 (1 # 10)) = binary64 (1 # 10)
  /\ is_clipped [binary64 (1 # 10); binary64 (1 # 10)] = Ok true
  /\ fmul (binary64 (575 # 1000)) 100 = 8092405580431359 # 140737488355328
  /\ np_round 2 (binary64 (575 # 1000)) = binary64 (57 # 100)
  /\ is_clipped [binary64 (575 # 1000); binary64 (57 # 100);
                 binary64 (57 # 100)] = Ok true.
Proof. repeat split; vm_compute; reflexivity. Qed.

Lemma py_max_is_peak (sig : waveform) (p : Q) :
  py_max (np_abs sig) = Ok p -> peak sig p.
Proof.
  destruct sig as [|a sig]; [discriminate|].
  cbn [np_abs map py_max]. intros H. apply Ok_inj in H. subst p.
  exact (running_max_spec (map Qabs sig) (Qabs a)).
Qed.

Lemma peak_is_py_max (sig : waveform) (p : Q) :
  peak sig p -> exists p', py_max (np_abs sig) = Ok p' /\ p' == p.
Proof.
  intros [Hin Hub]. destruct sig as [|a sig]; [destruct Hin|].
  exists (running_max (Qabs a) (map Qabs sig)). split; [reflexivity|].
  destruct (running_max_spec (map Qabs sig) (Qabs a)) as [Hin' Hub'].
  apply Qle_antisym; [apply Hub; exact Hin' | apply Hub'; exact Hin].
Qed.

End ClippingFacts.

Section RemoveClippedFacts.
Local Open Scope Q_scope.

(** Without timestamps [holder4] is never assigned: the loop can only finish
    by skipping every event. *)
Lemma loop_without_holder4 (v1 v2 : list waveform) (ev : list Z) (time : list Q)
    (idx : list nat) (h h' : holders) :
  holder4 h = None ->
  for_each (remove_clipped_body v1 v2 ev time) idx h = Ok h' ->
  h' = h /\ forall i, In i idx -> both_clipped v1 v2 i = Ok true.
Proof.
  intros Hn. revert h'. induction idx as [|i idx IH]; simpl; intros h' H.
  - inversion H. split; [reflexivity | intros i []].
  - apply bind_Ok_inv in H. destruct H as (s & Hb & Hrest).
    unfold remove_clipped_body in Hb.
    apply bind_Ok_inv in Hb. destruct Hb as (both & Hboth & Hb).
    destruct both.
    + inversion Hb; subst s. destruct (IH _ Hrest) as [-> Hall].
      split; [reflexivity|]. intros k [<-|Hk]; [exact Hboth | exact (Hall k Hk)].
    + exfalso.
      apply bind_Ok_inv in Hb. destruct Hb as (a & _ & Hb).
      apply bind_Ok_inv in Hb. destruct Hb as (b & _ & Hb).
      apply bind_Ok_inv in Hb. destruct Hb as (e & _ & Hb).
      apply bind_Ok_inv in Hb. destruct Hb as (h4 & Hl & _).
      rewrite Hn in Hl. discriminate.
Qed.

Lemma remove_clipped_no_time_returns (v1 v2 : list waveform) (ev : list Z)
    (out : filtered) :
  remove_clipped v1 v2 ev [] = Ok out ->
  out = Ret3 [] [] []
  /\ forall i, (i < length v1)%nat -> both_clipped v1 v2 i = Ok true.
Proof.
  unfold remove_clipped. simpl. intros H.
  apply bind_Ok_inv in H. destruct H as (h & Hloop & Hout).
  apply loop_without_holder4 in Hloop; [|reflexivity].
  destruct Hloop as [-> Hall]. inversion Hout. split; [reflexivity|].
  intros i Hi. apply Hall. apply in_seq. lia.
Qed.

Lemma zip4_cons a b e t v1 v2 ev time :
  zip4 (a :: v1) (b :: v2) (e :: ev) (t :: time)
  = (a, b, e, t) :: zip4 v1 v2 ev time.
Proof. reflexivity. Qed.

Lemma extend_nil (h : holders) (h4 : list Q) :
  holder4 h = Some h4 -> extend h h4 [] = h.
Proof.
  intros H. destruct h as [a b c d]. simpl in H. subst d.
  unfold extend. simpl. rewrite !app_nil_r. reflexivity.
Qed.

(** The index loop of the timestamp branch computes [survivors]. *)
Lemma loop_with_holder4 (v1 v2 : list waveform) :
  forall (ev : list Z) (time : list Q) (p1 p2 : list waveform) (p3 : list Z)
         (p4 : list Q) (h : holders) (h4 : list Q),
  length v2 = length v1 -> length ev = length v1 -> length time = length v1 ->
  length p2 = length p1 -> length p3 = length p1 -> length p4 = length p1 ->
  holder4 h = Some h4 ->
  for_each (remove_clipped_body (p1 ++ v1) (p2 ++ v2) (p3 ++ ev) (p4 ++ time))
           (seq (length p1) (length v1)) h
  = (r <- survivors (zip4 v1 v2 ev time) ;; Ok (extend h h4 r)).
Proof.
  revert v2. induction v1 as [|a v1 IH];
    intros [|b v2] [|e ev] [|t time] p1 p2 p3 p4 h h4 L2 L3 L4 P2 P3 P4 Hh;
    simpl in L2, L3, L4; try discriminate.
  - simpl. rewrite extend_nil by assumption. reflexivity.
  - rewrite zip4_cons. cbn [length seq for_each survivors].
    unfold remove_clipped_body at 1. unfold both_clipped.
    rewrite (getitem_app_at p1 a v1) by reflexivity.
    rewrite (getitem_app_at p2 b v2) by (symmetry; exact P2).
    rewrite (getitem_app_at p3 e ev) by (symmetry; exact P3).
    rewrite (getitem_app_at p4 t time) by (symmetry; exact P4).
    rewrite Hh. unfold pair_clipped. cbn [chan1 chan2 fst snd bind load].
    assert (Hrest : forall h1 h41, holder4 h1 = Some h41 ->
      for_each (remove_clipped_body (p1 ++ a :: v1) (p2 ++ b :: v2)
                  (p3 ++ e :: ev) (p4 ++ t :: time))
               (seq (S (length p1)) (length v1)) h1
      = (r <- survivors (zip4 v1 v2 ev time) ;; Ok (extend h1 h41 r))).
    { intros h1 h41 H1.
      specialize (IH v2 ev time (p1 ++ [a]) (p2 ++ [b]) (p3 ++ [e]) (p4 ++ [t])
                     h1 h41).
      rewrite <- !app_assoc in IH. simpl in IH.
      rewrite !length_app in IH. simpl in IH.
      replace (length p1 + 1)%nat with (S (length p1)) in IH by lia.
      apply IH; try lia; assumption. }
    assert (Hkeep :
      for_each (remove_clipped_body (p1 ++ a :: v1) (p2 ++ b :: v2)
                   (p3 ++ e :: ev) (p4 ++ t :: time))
                (seq (S (length p1)) (length v1))
                (mkHolders (holder1 h ++ [a]) (holder2 h ++ [b])
                    (holder3 h ++ [e]) (Some (h4 ++ [t])))
      = (r <- survivors (zip4 v1 v2 ev time) ;;
         Ok (extend h h4 ((a, b, e, t) :: r)))).
    { erewrite Hrest by reflexivity.
      destruct (survivors (zip4 v1 v2 ev time)) as [r|err]; cbn [bind];
        [|reflexivity].
      unfold extend. cbn [holder1 holder2 holder3 holder4 map chan1 chan2
                          event stamp fst snd].
      rewrite <- !app_assoc. reflexivity. }
    destruct (is_clipped a) as [ca|err]; cbn [bind]; [|reflexivity].
    destruct ca.
    + destruct (is_clipped b) as [cb|err]; cbn [bind]; [|reflexivity].
      destruct cb.
      * cbn [bind]. rewrite (Hrest h h4 Hh).
        destruct (survivors (zip4 v1 v2 ev time)); reflexivity.
      * cbn [bind]. rewrite Hkeep.
        destruct (survivors (zip4 v1 v2 ev time)); reflexivity.
    + cbn [bind]. rewrite Hkeep.
      destruct (survivors (zip4 v1 v2 ev time)); reflexivity.
Qed.

End RemoveClippedFacts.

Section RemoveClippedIdempotence.
Local Open Scope Q_scope.

Lemma remove_clipped_with_time (v1 v2 : list waveform) (ev : list Z)
    (time : list Q) :
  length v2 = length v1 -> length ev = length v1 -> length time = length v1 ->
  time <> [] ->
  remove_clipped v1 v2 ev time
  = (r <- survivors (zip4 v1 v2 ev time) ;;
     Ok (Ret4 (map chan1 r) (map chan2 r) (map event r) (map stamp r))).
Proof.
  intros L2 L3 L4 Ht. unfold remove_clipped.
  destruct time as [|t time]; [congruence|]. cbn [length Nat.eqb negb].
  pose proof (@loop_with_holder4 v1 v2 ev (t :: time) [] [] [] []
                (mkHolders [] [] [] (Some [])) [] L2 L3 L4
                eq_refl eq_refl eq_refl eq_refl) as Hloop.
  cbn [app length] in Hloop. rewrite Hloop.
  destruct (survivors (zip4 v1 v2 ev (t :: time))) as [r|err]; reflexivity.
Qed.

Lemma remove_clipped_empty (v2 : list waveform) (ev : list Z) (time : list Q) :
  remove_clipped [] v2 ev time
  = Ok (if negb (length time =? 0)%nat then Ret4 [] [] [] [] else Ret3 [] [] []).
Proof.
  unfold remove_clipped. destruct (negb (length time =? 0)%nat); reflexivity.
Qed.

Lemma survivors_fixed (l r : list entry) :
  survivors l = Ok r -> survivors r = Ok r.
Proof.
  revert r. induction l as [|x l IH]; simpl; intros r H.
  - inversion H. reflexivity.
  - apply bind_Ok_inv in H. destruct H as (both & Hboth & H).
    apply bind_Ok_inv in H. destruct H as (r' & Hr' & H).
    inversion H; subst r. destruct both.
    + exact (IH _ Hr').
    + simpl. rewrite Hboth. simpl. rewrite (IH _ Hr'). reflexivity.
Qed.

Lemma zip4_unzip (r : list entry) :
  zip4 (map chan1 r) (map chan2 r) (map event r) (map stamp r) = r.
Proof.
  induction r as [|[[[a b] e] t] r IH]; [reflexivity|].
  cbn [map chan1 chan2 event stamp fst snd]. rewrite zip4_cons, IH.
  reflexivity.
Qed.

Lemma refilter_survivors (l r : list entry) :
  survivors l = Ok r -> r <> [] ->
  refilter (Ret4 (map chan1 r) (map chan2 r) (map event r) (map stamp r))
  = Ok (Ret4 (map chan1 r) (map chan2 r) (map event r) (map stamp r)).
Proof.
  intros Hs Hr. cbn [refilter].
  rewrite remove_clipped_with_time; rewrite ?length_map; try reflexivity.
  - rewrite zip4_unzip, (survivors_fixed _ _ Hs). reflexivity.
  - destruct r; [congruence | discriminate].
Qed.

End RemoveClippedIdempotence.

(** * Claims on clipping and channel selection *)

Section ClippingClaims.
Local Open Scope Q_scope.

(** C6.  The claim counts the samples whose rounded magnitude equals the
    rounded maximum.  [is_clipped] rounds for the maximum only and compares the
    unrounded magnitudes with it: on the two-sample waveform [0.101, 0.101]
    both rounded samples equal the rounded maximum 0.10, so the claim asks for
    [True], and the code returns [False]; the same on the double that the
    literal 0.101 denotes. *)
Theorem is_clipped_compares_unrounded_samples :
  is_clipped [101 # 1000; 101 # 1000] = Ok false
  /\ is_clipped_as_specified [101 # 1000; 101 # 1000] = Ok true
  /\ length (filter (fun s => Qeq_bool s (np_round 2 (101 # 1000)))
               (map (np_round 2) (np_abs [101 # 1000; 101 # 1000]))) = 2%nat
  /\ is_clipped [binary64 (101 # 1000); binary64 (101 # 1000)] = Ok false
  /\ is_clipped_as_specified [binary64 (101 # 1000); binary64 (101 # 1000)]
     = Ok true.
Proof. repeat split; vm_compute; reflexivity. Qed.

(** C10.  There is a flat waveform of length at least 2 on which [is_clipped]
    returns [False]: every sample the double 0.101.  In general a flat
    waveform of length at least 2 whose common magnitude is not what
    [np.round] makes of it (in binary64) has no sample equal to the rounded
    maximum, and [is_clipped] returns [False] on it. *)
Theorem is_clipped_misses_flat_peak :
  (exists sig : waveform,
     (2 <= length sig)%nat
     /\ (forall s, In s sig -> s = binary64 (101 # 1000))
     /\ is_clipped sig = Ok false)
  /\ forall (v : Q) (n : nat),
       (2 <= n)%nat -> ~ np_round 2 (Qabs v) == Qabs v ->
       length (filter (fun s => Qeq_bool s (np_round 2 (Qabs v)))
                 (np_abs (repeat v n))) = 0%nat
       /\ is_clipped (repeat v n) = Ok false.
Proof.
  split.
  - exists [binary64 (101 # 1000); binary64 (101 # 1000)].
    split; [simpl; lia|]. split.
    + intros s [<-|[<-|[]]]; reflexivity.
    + vm_compute. reflexivity.
  - intros v n Hn Hne.
    destruct (is_clipped_flat v n) as [Hf Hc]; [lia | exact Hne |].
    rewrite Hf. split; [reflexivity | exact Hc].
Qed.

Lemma is_clipped_misses_flat_peak_witness :
  is_clipped (repeat (binary64 (101 # 1000)) 3) = Ok false.
Proof.
  apply (proj2 is_clipped_misses_flat_peak (binary64 (101 # 1000)) 3%nat).
  - lia.
  - vm_compute. discriminate.
Defined.

(** C7.  Without timestamps the call must return three sequences, also when a
    pair survives.  On one event whose channels are both unclipped the loop
    reaches [holder4.append] with [holder4] unassigned and the call raises; in
    general a call without timestamps returns only when every pair is skipped,
    and then with three empty sequences. *)
Theorem remove_clipped_without_time_raises :
  remove_clipped [[1 # 2; 1 # 10]] [[3 # 10; 1 # 5]] [1%Z] []
  = Raise (UnboundLocalError "holder4")
  /\ forall (v1 v2 : list waveform) (ev : list Z) (out : filtered),
       remove_clipped v1 v2 ev [] = Ok out ->
       out = Ret3 [] [] []
       /\ forall i, (i < length v1)%nat -> both_clipped v1 v2 i = Ok true.
Proof.
  split; [vm_compute; reflexivity|].
  intros v1 v2 ev out H. exact (remove_clipped_no_time_returns _ _ _ _ H).
Qed.

Lemma remove_clipped_without_time_raises_witness :
  both_clipped [[1; 1]] [[1; 1]] 0 = Ok true.
Proof.
  apply (proj2 (proj2 remove_clipped_without_time_raises
                  [[1; 1]] [[1; 1]] [1%Z] (Ret3 [] [] [])
                  ltac:(vm_compute; reflexivity)) 0%nat).
  simpl. lia.
Defined.

(** C8, counterexample.  One event with both channels clipped and a
    timestamp: the call returns four empty sequences, and applied to them it
    returns three. *)
Lemma refilter_changes_shape :
  remove_clipped [[1; 1]] [[1; 1]] [1%Z] [0] = Ok (Ret4 [] [] [] [])
  /\ refilter (Ret4 [] [] [] []) = Ok (Ret3 [] [] [])
  /\ refilter (Ret4 [] [] [] []) <> Ok (Ret4 [] [] [] []).
Proof.
  split; [vm_compute; reflexivity|].
  split; [vm_compute; reflexivity|].
  vm_compute. discriminate.
Qed.

(** C8, amended.  For parallel sequences of one length on which
    [remove_clipped] returns: if an event survives, the output has four
    non-empty sequences and [remove_clipped] applied to it returns it
    unchanged; if none survives, the output is empty (four sequences when
    timestamps were given, three otherwise) and [remove_clipped] applied to it
    returns three empty sequences. *)
Theorem remove_clipped_refilter :
  forall (v1 v2 : list waveform) (ev : list Z) (time : list Q) (out : filtered),
    length v2 = length v1 -> length ev = length v1 ->
    length time = length v1 ->
    remove_clipped v1 v2 ev time = Ok out ->
    (exists a b e t, t <> [] /\ out = Ret4 a b e t /\ refilter out = Ok out)
    \/ ((out = Ret4 [] [] [] [] \/ out = Ret3 [] [] [])
        /\ refilter out = Ok (Ret3 [] [] [])).
Proof.
  intros v1 v2 ev time out L2 L3 L4 H.
  destruct time as [|t time].
  - destruct v1; [|discriminate]. rewrite remove_clipped_empty in H.
    inversion H. right. split; [right; reflexivity | reflexivity].
  - rewrite remove_clipped_with_time in H by (assumption || discriminate).
    apply bind_Ok_inv in H. destruct H as (r & Hr & H). inversion H; subst out.
    destruct r as [|x r].
    + right. split; [left; reflexivity | reflexivity].
    + left. exists (map chan1 (x :: r)), (map chan2 (x :: r)),
        (map event (x :: r)), (map stamp (x :: r)).
      split; [discriminate|]. split; [reflexivity|].
      apply (refilter_survivors _ _ Hr). discriminate.
Qed.

Lemma remove_clipped_refilter_witness :
  refilter (Ret4 [[1 # 2; 1 # 3]] [[1; 1]] [2%Z] [1])
  = Ok (Ret4 [[1 # 2; 1 # 3]] [[1; 1]] [2%Z] [1]).
Proof.
  destruct (@remove_clipped_refilter
              [[1; 1]; [1 # 2; 1 # 3]] [[1; 1]; [1; 1]] [1%Z; 2%Z] [0; 1]
              (Ret4 [[1 # 2; 1 # 3]] [[1; 1]] [2%Z] [1])
              eq_refl eq_refl eq_refl ltac:(vm_compute; reflexivity))
    as [(a & b & e & t & _ & _ & H) | [[H | H] _]].
  - exact H.
  - discriminate H.
  - discriminate H.
Defined.

(** C9.  For two waveforms of one length: when they differ, [max_sig] and
    [min_sig] return one each, never the same one.  The number each function
    compares for a channel is its peak absolute amplitude, the largest
    magnitude among its samples.  With peaks [p] of channel 1 and [q] of
    channel 2, channel 1 is the maximum exactly when [q < p], so on equal
    peaks [max_sig] returns channel 2 and [min_sig] channel 1.  Both are pure
    selections: the result is one of the arguments. *)
Theorem max_sig_min_sig_select :
  forall a b : waveform,
    length a = length b ->
    (a <> b ->
     exists x y, max_sig a b = Ok x /\ min_sig a b = Ok y
                 /\ ((x = a /\ y = b) \/ (x = b /\ y = a)) /\ x <> y)
    /\ (forall p q, py_max (np_abs a) = Ok p -> py_max (np_abs b) = Ok q ->
          peak a p /\ peak b q)
    /\ (forall p q, peak a p -> peak b q ->
          (p == q -> max_sig a b = Ok b /\ min_sig a b = Ok a)
          /\ (q < p -> max_sig a b = Ok a /\ min_sig a b = Ok b)
          /\ (p <= q -> max_sig a b = Ok b /\ min_sig a b = Ok a)).
Proof.
  intros a b Hlen.
  assert (Hsel : forall p q, py_max (np_abs a) = Ok p ->
            py_max (np_abs b) = Ok q ->
            (q < p -> max_sig a b = Ok a /\ min_sig a b = Ok b)
            /\ (p <= q -> max_sig a b = Ok b /\ min_sig a b = Ok a)).
  { intros p q Hp Hq. unfold max_sig, min_sig. rewrite Hp, Hq. cbn [bind].
    destruct (Qcompare p q) eqn:E; split; intros H; try (split; reflexivity).
    - apply Qeq_alt in E. rewrite E in H. exfalso. exact (Qlt_irrefl _ H).
    - apply Qlt_alt in E. exfalso. exact (Qlt_irrefl _ (Qlt_trans _ _ _ E H)).
    - apply Qgt_alt in E. exfalso. exact (Qlt_not_le _ _ E H). }
  split; [|split].
  - intros Hne.
    destruct a as [|a0 a], b as [|b0 b]; try discriminate; [congruence|].
    destruct (Hsel _ _ eq_refl eq_refl) as [Hgt Hle].
    destruct (Qlt_le_dec (running_max (Qabs b0) (map Qabs b))
                         (running_max (Qabs a0) (map Qabs a))) as [H|H].
    + destruct (Hgt H) as [Hx Hy]. exists (a0 :: a), (b0 :: b).
      repeat split; try assumption. left. split; reflexivity.
    + destruct (Hle H) as [Hx Hy]. exists (b0 :: b), (a0 :: a).
      repeat split; try assumption; [right; split; reflexivity | congruence].
  - intros p q Hp Hq. split; apply py_max_is_peak; assumption.
  - intros p q Hpa Hqb.
    destruct (peak_is_py_max a p Hpa) as (p' & Hp' & Ep).
    destruct (peak_is_py_max b q Hqb) as (q' & Hq' & Eq).
    destruct (Hsel _ _ Hp' Hq') as [Hgt Hle].
    split; [|split].
    + intros Heq. apply Hle. rewrite Ep, Eq, Heq. apply Qle_refl.
    + intros Hlt. apply Hgt. rewrite Ep, Eq. exact Hlt.
    + intros Hle'. apply Hle. rewrite Ep, Eq. exact Hle'.
Qed.

Lemma max_sig_min_sig_select_witness :
  (max_sig [1; -3] [2; 1] = Ok [1; -3] /\ min_sig [1; -3] [2; 1] = Ok [2; 1])
  /\ (max_sig [1; -2] [2; 1] = Ok [2; 1] /\ min_sig [1; -2] [2; 1] = Ok [1; -2]).
Proof.
  split.
  - destruct (@max_sig_min_sig_select [1; -3] [2; 1] eq_refl) as (_ & _ & H).
    refine (proj1 (proj2 (H 3 2 _ _)) _).
    + split; [right; left; reflexivity|].
      intros s [<-|[<-|[]]]; vm_compute; discriminate.
    + split; [left; reflexivity|].
      intros s [<-|[<-|[]]]; vm_compute; discriminate.
    + reflexivity.
  - destruct (@max_sig_min_sig_select [1; -2] [2; 1] eq_refl) as (_ & _ & H).
    refine (proj1 (H 2 2 _ _) _).
    + split; [right; left; reflexivity|].
      intros s [<-|[<-|[]]]; vm_compute; discriminate.
    + split; [left; reflexivity|].
      intros s [<-|[<-|[]]]; vm_compute; discriminate.
    + reflexivity.
Defined.

End ClippingClaims.

(** * Index arrays and masks *)

Section MaskFacts.

Lemma take_where_from {A : Type} (g : R * R -> A) (keep : R -> bool) :
  forall (P pre : list (R * R)),
    take (map g (pre ++ P))
         (np_where_from (length pre) (map keep (map fst P)))
    = Ok (map g (filter (fun p => keep (fst p)) P)).
Proof.
  induction P as [|p P IH]; intros pre; [reflexivity|].
  assert (Hnext : take (map g (pre ++ p :: P))
            (np_where_from (S (length pre)) (map keep (map fst P)))
          = Ok (map g (filter (fun p => keep (fst p)) P))).
  { specialize (IH (pre ++ [p])). rewrite <- app_assoc in IH. simpl in IH.
    rewrite length_app in IH. simpl in IH.
    replace (length pre + 1)%nat with (S (length pre)) in IH by lia.
    exact IH. }
  cbn [map np_where_from filter]. destruct (keep (fst p)).
  - cbn [take]. rewrite Hnext.
    rewrite map_app. cbn [map].
    rewrite getitem_app_at by (rewrite length_map; reflexivity).
    reflexivity.
  - exact Hnext.
Qed.

Lemma take_where {A : Type} (g : R * R -> A) (keep : R -> bool)
    (P : list (R * R)) :
  take (map g P) (np_where (map keep (map fst P)))
  = Ok (map g (filter (fun p => keep (fst p)) P)).
Proof. exact (take_where_from g keep P []). Qed.

Lemma np_where_all (keep : R -> bool) :
  forall (l : list R) (i : nat),
    Forall (fun f => keep f = true) l ->
    np_where_from i (map keep l) = seq i (length l).
Proof.
  induction l as [|f l IH]; intros i H; [reflexivity|].
  inversion H as [|? ? Hf Hl]; subst. cbn [map np_where_from length seq].
  rewrite Hf, (IH _ Hl). reflexivity.
Qed.

Lemma take_seq_from {A : Type} :
  forall (m : nat) (l pre : list A),
    (m <= length l)%nat ->
    take (pre ++ l) (seq (length pre) m) = Ok (firstn m l).
Proof.
  induction m as [|m IH]; intros l pre Hm; [reflexivity|].
  destruct l as [|x l]; [simpl in Hm; lia|].
  cbn [seq take firstn]. rewrite getitem_app_at by reflexivity. cbn [bind].
  specialize (IH l (pre ++ [x])). rewrite <- app_assoc in IH. simpl in IH.
  rewrite length_app in IH. simpl in IH.
  replace (length pre + 1)%nat with (S (length pre)) in IH by lia.
  rewrite IH by (simpl in Hm; lia). reflexivity.
Qed.

Lemma filter_map_fst {A B : Type} (keep : A -> bool) (P : list (A * B)) :
  map fst (filter (fun p => keep (fst p)) P) = filter keep (map fst P).
Proof.
  induction P as [|p P IH]; [reflexivity|].
  simpl. destruct (keep (fst p)); simpl; rewrite IH; reflexivity.
Qed.

Lemma filter_twice {A : Type} (p q : A -> bool) (l : list A) :
  filter q (filter p l) = filter (fun x => p x && q x) l.
Proof.
  induction l as [|x l IH]; [reflexivity|].
  simpl. destruct (p x); simpl; [destruct (q x)|]; rewrite IH; reflexivity.
Qed.

Lemma filter_all {A : Type} (p : A -> bool) (l : list A) :
  Forall (fun x => p x = true) l -> filter p l = l.
Proof.
  induction 1 as [|x l Hx _ IH]; [reflexivity|].
  simpl. rewrite Hx, IH. reflexivity.
Qed.

Lemma filter_none {A : Type} (p : A -> bool) (l : list A) :
  Forall (fun x => p x = false) l -> filter p l = [].
Proof.
  induction 1 as [|x l Hx _ IH]; [reflexivity|].
  simpl. rewrite Hx, IH. reflexivity.
Qed.

Lemma band_limit_pairs (keep : R -> bool) (P : list (R * R)) :
  band_limit keep (map fst P, map snd P)
  = Ok (map fst (filter (fun p => keep (fst p)) P),
        map snd (filter (fun p => keep (fst p)) P)).
Proof.
  unfold band_limit. cbn [fst snd].
  rewrite (take_where snd keep P), (take_where fst keep P). reflexivity.
Qed.

End MaskFacts.

(** * The one-sided spectrum *)

Section FftFacts.
Local Open Scope R_scope.

Lemma Rleb_true (x y : R) : Rleb x y = true <-> x <= y.
Proof.
  unfold Rleb. destruct (Rle_dec x y); split; intros H;
    try reflexivity; try assumption; try discriminate; contradiction.
Qed.

Lemma Rleb_false (x y : R) : Rleb x y = false <-> y < x.
Proof.
  unfold Rleb. destruct (Rle_dec x y); split; intros H;
    try reflexivity; try discriminate; lra.
Qed.

Lemma Rltb_true (x y : R) : Rltb x y = true <-> x < y.
Proof.
  unfold Rltb. destruct (Rlt_dec x y); split; intros H;
    try reflexivity; try assumption; try discriminate; contradiction.
Qed.

Lemma Rltb_false (x y : R) : Rltb x y = false <-> y <= x.
Proof.
  unfold Rltb. destruct (Rlt_dec x y); split; intros H;
    try reflexivity; try discriminate; lra.
Qed.

Lemma half_count_le (n : nat) : (1 <= n)%nat -> ((n - 1) / 2 + 1 <= n)%nat.
Proof.
  intros Hn. pose proof (Nat.Div0.div_le_upper_bound (n - 1) 2 (n - 1)).
  lia.
Qed.

Lemma bin_scale_pos (n : nat) (dt : R) :
  (1 <= n)%nat -> 0 < dt -> 0 < 1 / (INR n * dt).
Proof.
  intros Hn Hdt. apply Rdiv_lt_0_compat; [lra|].
  apply Rmult_lt_0_compat; [|exact Hdt].
  apply lt_0_INR. lia.
Qed.

Lemma bin_frequency_low (n : nat) (dt : R) (i : nat) :
  (i < (n - 1) / 2 + 1)%nat ->
  bin_frequency n dt i = INR i * (1 / (INR n * dt)).
Proof.
  intros Hi. unfold bin_frequency.
  apply Nat.ltb_lt in Hi. rewrite Hi. rewrite <- INR_IZR_INZ. reflexivity.
Qed.

Lemma bin_frequency_high_neg (n : nat) (dt : R) (i : nat) :
  0 < dt -> ((n - 1) / 2 + 1 <= i)%nat -> (i < n)%nat ->
  bin_frequency n dt i < 0.
Proof.
  intros Hdt Hlo Hhi. unfold bin_frequency.
  apply Nat.ltb_ge in Hlo. rewrite Hlo.
  assert (Hs : 0 < 1 / (INR n * dt)) by (apply bin_scale_pos; [lia|exact Hdt]).
  assert (Hz : IZR (Z.of_nat i - Z.of_nat n) < 0) by (apply IZR_lt; lia).
  nra.
Qed.

Lemma full_spectrum_split (dt : R) (y : signal) :
  y <> [] ->
  full_spectrum dt y
  = map (fun i => (bin_frequency (length y) dt i, bin_magnitude y i))
        (seq 0 ((length y - 1) / 2 + 1))
    ++ map (fun i => (bin_frequency (length y) dt i, bin_magnitude y i))
        (seq ((length y - 1) / 2 + 1)
             (length y - ((length y - 1) / 2 + 1))).
Proof.
  intros Hy. unfold full_spectrum.
  assert (Hn : (1 <= length y)%nat) by (destruct y; [congruence | simpl; lia]).
  pose proof (half_count_le _ Hn) as HN.
  rewrite <- map_app. f_equal.
  replace (length y) with
    ((length y - 1) / 2 + 1 + (length y - ((length y - 1) / 2 + 1)))%nat
    at 1 by lia.
  rewrite seq_app. reflexivity.
Qed.

Lemma full_spectrum_prefix (dt : R) (y : signal) :
  y <> [] ->
  firstn ((length y - 1) / 2 + 1) (full_spectrum dt y)
  = map (fun i => (bin_frequency (length y) dt i, bin_magnitude y i))
        (seq 0 ((length y - 1) / 2 + 1)).
Proof.
  intros Hy. rewrite (full_spectrum_split dt y Hy).
  rewrite firstn_app, length_map, length_seq, Nat.sub_diag.
  cbn [firstn]. rewrite firstn_all2 by (rewrite length_map, length_seq; lia).
  apply app_nil_r.
Qed.

Lemma full_spectrum_nonneg (dt : R) (y : signal) :
  0 < dt -> y <> [] ->
  filter (fun p => Rleb 0 (fst p)) (full_spectrum dt y)
  = map (fun i => (bin_frequency (length y) dt i, bin_magnitude y i))
        (seq 0 ((length y - 1) / 2 + 1)).
Proof.
  intros Hdt Hy. rewrite (full_spectrum_split dt y Hy).
  assert (Hn : (1 <= length y)%nat) by (destruct y; [congruence | simpl; lia]).
  pose proof (half_count_le _ Hn) as HN.
  rewrite filter_app.
  rewrite filter_all, filter_none; [apply app_nil_r | |].
  - apply Forall_forall. intros p Hp.
    apply in_map_iff in Hp. destruct Hp as (i & <- & Hi).
    apply in_seq in Hi. cbn [fst]. apply Rleb_false.
    apply bin_frequency_high_neg; [exact Hdt | lia | lia].
  - apply Forall_forall. intros p Hp.
    apply in_map_iff in Hp. destruct Hp as (i & <- & Hi).
    apply in_seq in Hi. cbn [fst]. apply Rleb_true.
    rewrite bin_frequency_low by lia.
    pose proof (bin_scale_pos _ _ Hn Hdt). pose proof (pos_INR i). nra.
Qed.

Lemma full_spectrum_nonneg_prefix (dt : R) (y : signal) :
  0 < dt -> y <> [] ->
  filter (fun p => Rleb 0 (fst p)) (full_spectrum dt y)
  = firstn ((length y - 1) / 2 + 1) (full_spectrum dt y).
Proof.
  intros Hdt Hy.
  rewrite (full_spectrum_nonneg dt y Hdt Hy), (full_spectrum_prefix dt y Hy).
  reflexivity.
Qed.

Lemma np_abs_fft_full (dt : R) (y : signal) :
  y <> [] -> np_abs_fft y = Ok (map snd (full_spectrum dt y)).
Proof.
  intros Hy. destruct y as [|a y]; [congruence|].
  unfold np_abs_fft, full_spectrum. rewrite map_map. reflexivity.
Qed.

Lemma np_fftfreq_full (dt : R) (y : signal) :
  0 < dt -> y <> [] ->
  np_fftfreq (length y) dt = Ok (map fst (full_spectrum dt y)).
Proof.
  intros Hdt Hy. unfold np_fftfreq.
  assert (Hn : (1 <= length y)%nat) by (destruct y; [congruence | simpl; lia]).
  destruct (Req_dec_T (INR (length y) * dt) 0) as [E|_].
  - exfalso. pose proof (lt_0_INR (length y) ltac:(lia)). nra.
  - unfold full_spectrum. rewrite map_map. reflexivity.
Qed.

Lemma full_spectrum_length (dt : R) (y : signal) :
  length (full_spectrum dt y) = length y.
Proof. unfold full_spectrum. rewrite length_map, length_seq. reflexivity. Qed.

(** With a positive sample spacing the non-negative frequencies are a prefix
    of the frequency array, so the second mask of line 199, although computed
    from the frequencies already kept, selects the matching magnitudes. *)
Lemma fft_pairs (dt : R) (y : signal) (low_pass high_pass : option R) :
  0 < dt -> y <> [] ->
  fft dt y low_pass high_pass
  = Ok (map fst (filter (fun p => fft_keeps low_pass high_pass (fst p))
                        (full_spectrum dt y)),
        map snd (filter (fun p => fft_keeps low_pass high_pass (fst p))
                        (full_spectrum dt y))).
Proof.
  intros Hdt Hy. unfold fft.
  rewrite (np_abs_fft_full dt y Hy). cbn [bind].
  rewrite length_map, full_spectrum_length, (np_fftfreq_full dt y Hdt Hy).
  cbn [bind]. rewrite (take_where fst). cbn [bind].
  set (P0 := full_spectrum dt y).
  set (P1 := filter (fun p => Rleb 0 (fst p)) P0).
  assert (Hall : Forall (fun f => Rleb 0 f = true) (map fst P1)).
  { apply Forall_forall. intros f Hf. apply in_map_iff in Hf.
    destruct Hf as (p & <- & Hp). apply filter_In in Hp. exact (proj2 Hp). }
  unfold np_where at 1.
  rewrite (@np_where_all (fun f => Rleb 0 f) (map fst P1) 0%nat Hall).
  assert (HP1 : P1 = firstn ((length y - 1) / 2 + 1) P0)
    by (apply full_spectrum_nonneg_prefix; assumption).
  assert (Hlen : (length (map fst P1) <= length (map snd P0))%nat).
  { rewrite !length_map, HP1, length_firstn. lia. }
  pose proof (take_seq_from _ (map snd P0) [] Hlen) as Htake.
  cbn [app length] in Htake. rewrite Htake. cbn [bind].
  assert (Hz : firstn (length (map fst P1)) (map snd P0) = map snd P1).
  { rewrite length_map, firstn_map. f_equal.
    rewrite HP1 at 2. f_equal. rewrite HP1, length_firstn.
    subst P0. rewrite full_spectrum_length.
    assert ((1 <= length y)%nat) by (destruct y; [congruence | simpl; lia]).
    pose proof (half_count_le _ H). lia. }
  rewrite Hz.
  destruct low_pass as [lo|], high_pass as [hi|];
    rewrite ?band_limit_pairs; cbn [bind]; rewrite ?band_limit_pairs;
    subst P1; rewrite ?filter_twice; unfold fft_keeps;
    match goal with
    | |- Ok (map fst ?X, _) = Ok (map fst ?Y, _) =>
        replace X with Y; [reflexivity|]
    end;
    apply filter_ext; intros p; rewrite ?andb_true_r, ?andb_assoc; reflexivity.
Qed.

End FftFacts.

Section SpectrumOrder.
Local Open Scope R_scope.

Lemma ascending_map_seq (f : nat -> R) :
  forall (m a : nat),
    (forall i k, (a <= i)%nat -> (i < k)%nat -> (k < a + m)%nat -> f i < f k) ->
    StronglySorted Rlt (map f (seq a m)).
Proof.
  induction m as [|m IH]; intros a Hf; cbn [seq map]; constructor.
  - apply IH. intros i k Hi Hik Hk. apply Hf; lia.
  - apply Forall_forall. intros x Hx. apply in_map_iff in Hx.
    destruct Hx as (k & <- & Hk). apply in_seq in Hk. apply Hf; lia.
Qed.

Lemma ascending_filter (p : R -> bool) (l : list R) :
  StronglySorted Rlt l -> StronglySorted Rlt (filter p l).
Proof.
  induction 1 as [|x l _ IH Hx]; cbn [filter]; [constructor|].
  destruct (p x); [|exact IH]. constructor; [exact IH|].
  apply Forall_forall. intros y Hy. apply filter_In in Hy.
  rewrite Forall_forall in Hx. apply Hx. exact (proj1 Hy).
Qed.

Lemma combine_fst_snd {A B : Type} (P : list (A * B)) :
  combine (map fst P) (map snd P) = P.
Proof.
  induction P as [|[a b] P IH]; [reflexivity|].
  simpl. rewrite IH. reflexivity.
Qed.

Lemma nonneg_frequencies_ascend (dt : R) (y : signal) :
  0 < dt -> y <> [] ->
  StronglySorted Rlt
    (map fst (filter (fun p => Rleb 0 (fst p)) (full_spectrum dt y))).
Proof.
  intros Hdt Hy. rewrite (full_spectrum_nonneg dt y Hdt Hy).
  assert (Hn : (1 <= length y)%nat) by (destruct y; [congruence | simpl; lia]).
  pose proof (half_count_le _ Hn) as HN.
  rewrite map_map. cbn [fst].
  apply ascending_map_seq. intros i k _ Hik Hk.
  rewrite !bin_frequency_low by lia.
  pose proof (bin_scale_pos _ _ Hn Hdt) as Hs.
  apply Rmult_lt_compat_r; [exact Hs|]. apply lt_INR. exact Hik.
Qed.

Lemma fft_keeps_nonneg (lo hi : option R) (f : R) :
  fft_keeps lo hi f = true -> Rleb 0 f = true.
Proof.
  unfold fft_keeps. intros H.
  apply andb_true_iff in H. destruct H as [H _].
  apply andb_true_iff in H. exact (proj1 H).
Qed.

Lemma kept_frequencies_ascend (dt : R) (y : signal) (lo hi : option R) :
  0 < dt -> y <> [] ->
  StronglySorted Rlt
    (map fst (filter (fun p => fft_keeps lo hi (fst p)) (full_spectrum dt y))).
Proof.
  intros Hdt Hy.
  assert (E : filter (fun p => fft_keeps lo hi (fst p)) (full_spectrum dt y)
            = filter (fun p => fft_keeps lo hi (fst p))
                (filter (fun p : R * R => Rleb 0 (fst p)) (full_spectrum dt y))).
  { rewrite filter_twice. apply filter_ext. intros p.
    destruct (fft_keeps lo hi (fst p)) eqn:K.
    - rewrite (fft_keeps_nonneg _ _ _ K). reflexivity.
    - rewrite andb_false_r. reflexivity. }
  rewrite E, filter_map_fst. apply ascending_filter.
  apply nonneg_frequencies_ascend; assumption.
Qed.

End SpectrumOrder.

(** * The spectrum of an impulse *)

Section ImpulseSpectrum.
Local Open Scope R_scope.

Lemma Rsum_zeros (h : nat -> R -> R) :
  (forall i, h i 0 = 0) ->
  forall (n a : nat),
    Rsum (map (fun p => h (fst p) (snd p)) (combine (seq a n) (repeat 0 n))) = 0.
Proof.
  intros Hh. induction n as [|n IH]; intros a; [reflexivity|].
  cbn [seq repeat combine map Rsum fold_right fst snd].
  fold (Rsum (map (fun p => h (fst p) (snd p))
                  (combine (seq (S a) n) (repeat 0 n)))).
  rewrite IH, Hh. ring.
Qed.

Lemma Rsum_cons (x : R) (l : list R) : Rsum (x :: l) = x + Rsum l.
Proof. reflexivity. Qed.

(** Every coefficient of the transform of [1, 0, ..., 0] has magnitude 1. *)
Lemma bin_magnitude_impulse (n k : nat) :
  bin_magnitude (1 :: repeat 0 n) k = 1.
Proof.
  unfold bin_magnitude, dft_re, dft_im.
  cbn [length]. rewrite repeat_length.
  cbn [seq combine map fst snd]. rewrite !Rsum_cons.
  rewrite (Rsum_zeros
             (fun i x => x * cos (2 * PI * INR k * INR i / INR (S n)))
             (fun i => Rmult_0_l _) n 1%nat).
  rewrite (Rsum_zeros
             (fun i x => - (x * sin (2 * PI * INR k * INR i / INR (S n))))
             ltac:(intros i; cbv beta; ring) n 1%nat).
  replace (2 * PI * INR k * INR 0 / INR (S n)) with 0
    by (change (INR 0) with 0; unfold Rdiv; ring).
  rewrite cos_0, sin_0.
  replace (1 * 1 + 0) with 1 by ring.
  replace (- (1 * 0) + 0) with 0 by ring.
  rewrite Rsqr_0, Rsqr_1, Rplus_0_r. apply sqrt_1.
Qed.

Lemma full_spectrum_three :
  full_spectrum 1 [1; 0; 0] = [(0, 1); (1 / 3, 1); (- (1 / 3), 1)].
Proof.
  unfold full_spectrum. cbn [length seq map].
  rewrite !(bin_magnitude_impulse 2).
  assert (F0 : bin_frequency 3 1 0 = 0)
    by (unfold bin_frequency; simpl; field).
  assert (F1 : bin_frequency 3 1 1 = 1 / 3)
    by (unfold bin_frequency; simpl; field).
  assert (F2 : bin_frequency 3 1 2 = - (1 / 3))
    by (unfold bin_frequency; simpl; field).
  rewrite F0, F1, F2. reflexivity.
Qed.

(** A band that holds the frequency 1/3 and not the frequency 0. *)
Lemma fft_three (lo hi : R) :
  0 <= lo < 1 / 3 -> 1 / 3 < hi ->
  fft 1 [1; 0; 0] (Some lo) (Some hi) = Ok ([1 / 3], [1]).
Proof.
  intros [Hlo0 Hlo] Hhi.
  rewrite fft_pairs by (lra || discriminate).
  rewrite full_spectrum_three. cbn [filter fst]. unfold fft_keeps.
  rewrite (proj2 (Rltb_false lo 0)) by lra.
  rewrite (proj2 (Rleb_true 0 (1 / 3))) by lra.
  rewrite (proj2 (Rltb_true lo (1 / 3))) by lra.
  rewrite (proj2 (Rltb_true (1 / 3) hi)) by lra.
  rewrite (proj2 (Rleb_false 0 (- (1 / 3)))) by lra.
  rewrite !andb_false_r. cbn [andb map fst snd]. reflexivity.
Qed.

(** A band that holds both. *)
Lemma fft_three_wide (lo hi : R) :
  lo < 0 -> 1 / 3 < hi ->
  fft 1 [1; 0; 0] (Some lo) (Some hi) = Ok ([0; 1 / 3], [1; 1]).
Proof.
  intros Hlo Hhi.
  rewrite fft_pairs by (lra || discriminate).
  rewrite full_spectrum_three. cbn [filter fst]. unfold fft_keeps.
  rewrite (proj2 (Rleb_true 0 0)) by lra.
  rewrite (proj2 (Rltb_true lo 0)) by lra.
  rewrite (proj2 (Rltb_true 0 hi)) by lra.
  rewrite (proj2 (Rleb_true 0 (1 / 3))) by lra.
  rewrite (proj2 (Rltb_true lo (1 / 3))) by lra.
  rewrite (proj2 (Rltb_true (1 / 3) hi)) by lra.
  rewrite (proj2 (Rleb_false 0 (- (1 / 3)))) by lra.
  cbn [andb map fst snd]. reflexivity.
Qed.

End ImpulseSpectrum.

Section SpectrumClaims.
Local Open Scope R_scope.

(** C5, counterexample.  [np.fft.fft] refuses an empty array, so on the empty
    waveform [fft] returns no sequences at all. *)
Lemma fft_rejects_empty_waveform :
  fft 1 [] None None
  = Raise (ValueError "Invalid number of FFT data points (0) specified.").
Proof. reflexivity. Qed.

(** C5, amended.  For every positive sample spacing and every non-empty
    waveform, with either band limit present or absent, [fft] returns
    frequencies and magnitudes of one length; the frequencies are
    non-negative and strictly ascending; and the pairs (frequency, magnitude)
    are, in order, exactly the pairs of the unmasked arrays whose frequency
    passes the tests, so that every magnitude kept sits at the transform
    index of the frequency kept with it. *)
Theorem fft_one_sided_spectrum :
  forall (dt : R) (y : signal) (low_pass high_pass : option R),
    0 < dt -> y <> [] ->
    exists w z,
      fft dt y low_pass high_pass = Ok (w, z)
      /\ length w = length z
      /\ Forall (fun f => 0 <= f) w
      /\ StronglySorted Rlt w
      /\ np_fftfreq (length y) dt = Ok (map fst (full_spectrum dt y))
      /\ np_abs_fft y = Ok (map snd (full_spectrum dt y))
      /\ combine w z
         = filter (fun p => fft_keeps low_pass high_pass (fst p))
                  (full_spectrum dt y).
Proof.
  intros dt y lo hi Hdt Hy.
  eexists. eexists. split; [apply fft_pairs; assumption|].
  split; [rewrite !length_map; reflexivity|].
  split.
  { apply Forall_forall. intros f Hf. apply in_map_iff in Hf.
    destruct Hf as (p & <- & Hp). apply filter_In in Hp.
    apply Rleb_true. exact (fft_keeps_nonneg _ _ _ (proj2 Hp)). }
  split; [apply kept_frequencies_ascend; assumption|].
  split; [apply np_fftfreq_full; assumption|].
  split; [apply np_abs_fft_full; assumption|].
  apply combine_fst_snd.
Qed.

Lemma fft_one_sided_spectrum_witness :
  exists w z, fft 1 [1; 0; 0] (Some (-1)) (Some 1) = Ok (w, z)
              /\ length w = length z /\ StronglySorted Rlt w
              /\ combine w z = [(0, 1); (1 / 3, 1)].
Proof.
  destruct (@fft_one_sided_spectrum 1 [1; 0; 0] (Some (-1)) (Some 1)
              ltac:(lra) ltac:(discriminate))
    as (w & z & H & Hl & _ & Hs & _ & _ & Hc).
  exists w, z. repeat split; try assumption.
  rewrite Hc, full_spectrum_three. cbn [filter fst]. unfold fft_keeps.
  rewrite (proj2 (Rleb_true 0 0)) by lra.
  rewrite (proj2 (Rltb_true (-1) 0)) by lra.
  rewrite (proj2 (Rltb_true 0 1)) by lra.
  rewrite (proj2 (Rleb_true 0 (1 / 3))) by lra.
  rewrite (proj2 (Rltb_true (-1) (1 / 3))) by lra.
  rewrite (proj2 (Rltb_true (1 / 3) 1)) by lra.
  rewrite (proj2 (Rleb_false 0 (- (1 / 3)))) by lra.
  reflexivity.
Defined.

End SpectrumClaims.

(** * Facts about doubles *)

Section DoubleFacts.
Local Open Scope Q_scope.

(** [binary64] sees the value of its argument only. *)
Lemma binary64_compat (x y : Q) : x == y -> binary64 x = binary64 y.
Proof.
  intros H. unfold binary64. rewrite (Qred_complete x y H). reflexivity.
Qed.

Lemma fadd_comm (a b : Q) : fadd a b = fadd b a.
Proof. apply binary64_compat. apply Qplus_comm. Qed.

Lemma py_div_Ok (a b q : Q) : py_div a b = Ok q -> ~ b == 0 /\ q = fdiv a b.
Proof.
  unfold py_div. destruct (Qeq_bool b 0) eqn:E; [discriminate|].
  intros H. inversion H. split; [|reflexivity].
  intros Hb. apply Qeq_bool_iff in Hb. congruence.
Qed.

Lemma py_div_nonzero (a b : Q) : ~ b == 0 -> py_div a b = Ok (fdiv a b).
Proof.
  intros Hb. unfold py_div. destruct (Qeq_bool b 0) eqn:E; [|reflexivity].
  apply Qeq_bool_iff in E. contradiction.
Qed.


End DoubleFacts.

(** * The integration loop of [wave2vec] *)

Section LoopFacts.
Local Open Scope R_scope.

Lemma np_linspace_length (start stop : Q) (num : Z) (grid : list Q) :
  np_linspace start stop num = Ok grid ->
  (0 <= num)%Z /\ length grid = Z.to_nat num.
Proof.
  unfold np_linspace. destruct (num <? 0)%Z eqn:E; [discriminate|].
  intros H. inversion H. rewrite length_map, length_seq.
  apply Z.ltb_ge in E. split; [exact E | reflexivity].
Qed.

Lemma np_linspace_returns (start stop : Q) (num : Z) :
  (0 <= num)%Z -> exists grid, np_linspace start stop num = Ok grid.
Proof.
  intros H. unfold np_linspace. destruct (num <? 0)%Z eqn:E;
    [apply Z.ltb_lt in E; lia|]. eexists. reflexivity.
Qed.

Lemma np_interp_length (x xp fp out : list R) :
  np_interp x xp fp = Ok out -> length out = length x.
Proof.
  unfold np_interp. destruct xp; [discriminate|].
  destruct (length fp =? length (r :: xp))%nat; [|discriminate].
  intros H. inversion H. apply length_map.
Qed.

(** The difference of the first two grid points is [grid_step]. *)
Lemma np_linspace_step (lower upper FFT_units : Q) (num : Z)
    (grid : list Q) (w0 w1 : Q) :
  np_linspace lower upper num = Ok grid ->
  getitem (map (fun f => fdiv f FFT_units) grid) 1 = Ok w1 ->
  getitem (map (fun f => fdiv f FFT_units) grid) 0 = Ok w0 ->
  (2 <= num)%Z /\ fsub w1 w0 = grid_step lower upper FFT_units num.
Proof.
  intros Hgrid H1 H0.
  destruct (np_linspace_length _ _ _ _ Hgrid) as [Hnum Hlen].
  unfold np_linspace in Hgrid.
  destruct (num <? 0)%Z; [discriminate|]. apply Ok_inj in Hgrid.
  destruct (Z.to_nat num) as [|[|n]] eqn:En; subst grid;
    cbn [seq map getitem nth_error] in H1, H0; try discriminate.
  apply Ok_inj in H1. apply Ok_inj in H0. subst w0 w1.
  split; [lia | reflexivity].
Qed.

Lemma wave2vec_loop_shape (upsampled_z : list R) (lower FFT_units : Q) :
  forall (m a : nat) (s s' : locals),
    for_each (wave2vec_body upsampled_z lower FFT_units) (seq a m) s = Ok s' ->
    dw s' = dw s
    /\ interval_width s' = interval_width s
    /\ true_bounds s'
       = true_bounds s
         ++ map (fun k =>
                   fadd (fdiv lower FFT_units)
                        (fmul (binary64
                                 (inject_Z (Z.of_nat k * interval_width s)))
                              (dw s)))
                (seq a m)
    /\ length (feature_vector s') = (length (feature_vector s) + m)%nat
    /\ j s' = (if (m =? 0)%nat then j s else Some (Z.of_nat (a + m - 1)))
    /\ ((0 < m)%nat -> ~ (FFT_units == 0)%Q).
Proof.
  induction m as [|m IH]; intros a s s' H; cbn [seq for_each] in H.
  - inversion H; subst s'. cbn [seq map]. rewrite app_nil_r, Nat.add_0_r.
    repeat split; try reflexivity. intros Hm; inversion Hm.
  - apply bind_Ok_inv in H. destruct H as (s1 & Hbody & Hrest).
    unfold wave2vec_body in Hbody.
    apply bind_Ok_inv in Hbody. destruct Hbody as (mass & _ & Hbody).
    apply bind_Ok_inv in Hbody. destruct Hbody as (lo & Hlo & Hbody).
    apply py_div_Ok in Hlo. destruct Hlo as [HF ->].
    inversion Hbody; subst s1. clear Hbody.
    apply IH in Hrest. cbn [dw interval_width true_bounds feature_vector j]
      in Hrest.
    destruct Hrest as (Hdw & Hiw & Htb & Hlen & Hj & _).
    repeat split; try assumption.
    + rewrite Htb, <- app_assoc. reflexivity.
    + rewrite Hlen, length_app. simpl. lia.
    + rewrite Hj. destruct m as [|m]; cbn [Nat.eqb].
      * f_equal. f_equal. lia.
      * f_equal. f_equal. lia.
    + intros _. exact HF.
Qed.

(** What the locals hold when the loop has finished. *)
Lemma wave2vec_integrate_shape (dt : R) (waveform : signal) (lower upper : Q)
    (dims : Z) (FFT_units : Q) (upsample : Z) (s : locals) :
  wave2vec_integrate dt waveform lower upper dims FFT_units upsample = Ok s ->
  (2 <= upsample)%Z /\ dims <> 0%Z
  /\ dw s = grid_step lower upper FFT_units upsample
  /\ interval_width s = Z.quot upsample dims
  /\ true_bounds s
     = map (fun k =>
              fadd (fdiv lower FFT_units)
                   (fmul (binary64
                            (inject_Z (Z.of_nat k * Z.quot upsample dims)))
                         (grid_step lower upper FFT_units upsample)))
           (seq 0 (Z.to_nat dims))
  /\ length (feature_vector s) = Z.to_nat dims
  /\ j s = (if (Z.to_nat dims =? 0)%nat then None else Some (dims - 1)%Z)
  /\ ((0 < dims)%Z -> ~ (FFT_units == 0)%Q).
Proof.
  unfold wave2vec_integrate. intros H.
  apply bind_Ok_inv in H. destruct H as (wz & _ & H).
  apply bind_Ok_inv in H. destruct H as (grid & Hgrid & H).
  apply bind_Ok_inv in H. destruct H as (uz & Huz & H).
  apply bind_Ok_inv in H. destruct H as (w1 & Hw1 & H).
  apply bind_Ok_inv in H. destruct H as (w0 & Hw0 & H).
  apply bind_Ok_inv in H. destruct H as (width & Hwidth & H).
  destruct (np_linspace_step _ _ _ _ _ _ _ Hgrid Hw1 Hw0) as (Hup & Hstep).
  destruct (np_linspace_length _ _ _ _ Hgrid) as [_ Hglen].
  apply np_interp_length in Huz. rewrite !length_map, Hglen in Huz.
  destruct (dims =? 0)%Z eqn:Ed; [discriminate|].
  apply Z.eqb_neq in Ed. inversion Hwidth; subst width. clear Hwidth.
  rewrite Huz, Z2Nat.id in H by lia.
  apply wave2vec_loop_shape in H.
  cbn [dw interval_width true_bounds feature_vector j app length Nat.add] in H.
  destruct H as (Hdw & Hiw & Htb & Hlen & Hj & HF).
  rewrite Hstep in *.
  repeat split; try assumption; try lia.
  - rewrite Hj. destruct (Z.to_nat dims) as [|m] eqn:Em; cbn [Nat.eqb];
      [reflexivity|]. f_equal. lia.
  - intros Hd. apply HF. lia.
Qed.

End LoopFacts.

Section FinishFacts.
Local Open Scope R_scope.

Lemma nth_map_seq {A : Type} (f : nat -> A) (d : A) :
  forall (m a k : nat), (k < m)%nat -> nth k (map f (seq a m)) d = f (a + k)%nat.
Proof.
  induction m as [|m IH]; intros a k Hk; [lia|].
  destruct k as [|k]; cbn [seq map nth].
  - rewrite Nat.add_0_r. reflexivity.
  - rewrite IH by lia. f_equal. lia.
Qed.

Lemma Rsum_scaled (l : list R) (s : R) :
  Rsum (map (fun m => m / s) l) = Rsum l / s.
Proof.
  induction l as [|x l IH]; simpl; [unfold Rdiv; ring|].
  rewrite IH. unfold Rdiv. ring.
Qed.

Lemma np_div_finite (l : list R) (s : R) :
  s <> 0 -> map (fun m => np_div m s) l = map Fin (map (fun m => m / s) l).
Proof.
  intros Hs. rewrite map_map. apply map_ext. intros m.
  unfold np_div. destruct (Req_dec_T s 0); [contradiction | reflexivity].
Qed.

(** The band edges of a completed loop are the edges the specification
    names. *)
Lemma wave2vec_integrate_edges (dt : R) (waveform : signal) (lower upper : Q)
    (dims : Z) (FFT_units : Q) (upsample : Z) (s : locals) :
  wave2vec_integrate dt waveform lower upper dims FFT_units upsample = Ok s ->
  (0 < dims)%Z ->
  true_bounds s
  = map (band_edge lower upper dims FFT_units upsample)
        (seq 0 (Z.to_nat dims)).
Proof.
  intros Hs Hd.
  destruct (wave2vec_integrate_shape _ _ _ _ _ _ _ _ Hs)
    as (Hup & _ & _ & _ & Htb & _ & _ & _).
  rewrite Htb. rewrite Z.quot_div_nonneg by lia. reflexivity.
Qed.

(** Once the loop has run for a positive [dims], what is left is the coverage
    check. *)
Lemma wave2vec_finish_check (dt : R) (waveform : signal) (lower upper : Q)
    (dims : Z) (FFT_units : Q) (upsample : Z) (s : locals) :
  wave2vec_integrate dt waveform lower upper dims FFT_units upsample = Ok s ->
  (0 < dims)%Z ->
  wave2vec_finish lower upper FFT_units s
  = if float64_gt (coverage_gap lower upper dims FFT_units upsample)
                  (binary64 (1 # 100))
    then Raise (ValueError "Increase upsampling number")
    else Ok (map (fun m => np_div m (Rsum (feature_vector s)))
                 (feature_vector s),
             map (band_edge lower upper dims FFT_units upsample)
                 (seq 0 (Z.to_nat dims)),
             fmul (binary64 (inject_Z (upsample / dims)))
                  (grid_step lower upper FFT_units upsample)).
Proof.
  intros Hs Hd.
  rewrite <- (wave2vec_integrate_edges _ _ _ _ _ _ _ _ Hs Hd).
  destruct (wave2vec_integrate_shape _ _ _ _ _ _ _ _ Hs)
    as (Hup & _ & Hdw & Hiw & _ & _ & Hj & HF).
  specialize (HF Hd).
  assert (Hq : Z.quot upsample dims = (upsample / dims)%Z)
    by (apply Z.quot_div_nonneg; lia).
  unfold wave2vec_finish. rewrite Hj.
  destruct (Z.to_nat dims =? 0)%nat eqn:E; [apply Nat.eqb_eq in E; lia|].
  cbn [load bind]. rewrite !py_div_nonzero by exact HF. cbn [bind].
  rewrite Hdw, Hiw, Hq.
  replace (dims - 1 + 1)%Z with dims by lia.
  rewrite (fadd_comm _ (fdiv lower FFT_units)).
  reflexivity.
Qed.

Lemma wave2vec_needs_positive_dims (dt : R) (waveform : signal)
    (lower upper : Q) (dims : Z) (FFT_units : Q) (upsample : Z)
    (s : locals) (r : list npfloat * list Q * Q) :
  wave2vec_integrate dt waveform lower upper dims FFT_units upsample = Ok s ->
  wave2vec_finish lower upper FFT_units s = Ok r ->
  (0 < dims)%Z.
Proof.
  intros Hs Hf.
  destruct (wave2vec_integrate_shape _ _ _ _ _ _ _ _ Hs)
    as (_ & _ & _ & _ & _ & _ & Hj & _).
  unfold wave2vec_finish in Hf. rewrite Hj in Hf.
  destruct (Z.to_nat dims =? 0)%nat eqn:E; [discriminate|].
  apply Nat.eqb_neq in E. lia.
Qed.

End FinishFacts.


(** * When the integration loop completes *)

Section LoopReturns.
Local Open Scope R_scope.

Lemma getitem_in_range {A : Type} (l : list A) (i : nat) :
  (i < length l)%nat -> exists x, getitem l i = Ok x.
Proof.
  intros Hi. unfold getitem. destruct (nth_error l i) as [x|] eqn:E.
  - exists x. reflexivity.
  - apply nth_error_None in E. lia.
Qed.

Lemma simps_nonempty (y : list R) : y <> [] -> exists r, simps y = Ok r.
Proof.
  intros Hy. destruct y as [|a y]; [congruence|].
  unfold simps. destruct (Nat.even (length (a :: y))); eexists; reflexivity.
Qed.

Lemma py_slice_length {A : Type} (l : list A) (a b : nat) :
  (b <= length l)%nat -> length (py_slice l a b) = (b - a)%nat.
Proof.
  intros Hb. unfold py_slice. rewrite length_skipn, length_firstn. lia.
Qed.

Lemma wave2vec_loop_returns (upsampled_z : list R) (lower FFT_units : Q) :
  ~ (FFT_units == 0)%Q ->
  forall (m a : nat) (s : locals),
    (0 < interval_width s)%Z ->
    (Z.of_nat (a + m) * interval_width s <= Z.of_nat (length upsampled_z))%Z ->
    exists s',
      for_each (wave2vec_body upsampled_z lower FFT_units) (seq a m) s = Ok s'.
Proof.
  intros HF. induction m as [|m IH]; intros a s Hw Hfit.
  - exists s. reflexivity.
  - cbn [seq for_each]. unfold wave2vec_body at 1.
    set (sub := py_slice upsampled_z
                  (Z.to_nat (Z.of_nat a * interval_width s))
                  (Z.to_nat ((Z.of_nat a + 1) * interval_width s))).
    assert (Hsub : sub <> []).
    { intros E. apply (f_equal (@length R)) in E. subst sub.
      rewrite py_slice_length in E by nia. simpl in E. nia. }
    destruct (simps_nonempty sub Hsub) as [mass Hmass].
    rewrite Hmass. cbn [bind]. rewrite py_div_nonzero by exact HF.
    cbn [bind]. apply IH; cbn [interval_width]; [exact Hw | nia].
Qed.

(** With a positive spacing, a transform frequency inside the band and at
    least two grid points, [wave2vec] reaches line 295 with [upsample]
    interpolated values. *)
Lemma wave2vec_front (dt : R) (waveform : signal) (lower upper : Q)
    (dims : Z) (FFT_units : Q) (upsample : Z) (i : nat) :
  0 < dt -> (i < length waveform)%nat ->
  0 <= bin_frequency (length waveform) dt i ->
  Q2R lower < bin_frequency (length waveform) dt i < Q2R upper ->
  (2 <= upsample)%Z ->
  exists (upsampled_z : list R),
    length upsampled_z = Z.to_nat upsample
    /\ wave2vec_integrate dt waveform lower upper dims FFT_units upsample
       = (width <- (if (dims =? 0)%Z then Raise ZeroDivisionError
                    else Ok (Z.quot (Z.of_nat (length upsampled_z)) dims)) ;;
          for_each (wave2vec_body upsampled_z lower FFT_units)
                   (seq 0 (Z.to_nat dims))
                   (mkLocals [] [] None
                             (grid_step lower upper FFT_units upsample)
                             width)).
Proof.
  intros Hdt Hi H0 [Hlo Hhi] Hup.
  assert (Hy : waveform <> [])
    by (destruct waveform; [simpl in Hi; lia | discriminate]).
  unfold wave2vec_integrate. rewrite (fft_pairs dt waveform _ _ Hdt Hy).
  cbn [bind fst snd].
  set (P := filter (fun p => fft_keeps (Some (Q2R lower)) (Some (Q2R upper))
                                       (fst p))
              (full_spectrum dt waveform)).
  assert (HP : P <> []).
  { assert (Hin : In (bin_frequency (length waveform) dt i,
                      bin_magnitude waveform i) P).
    { apply filter_In. split.
      - unfold full_spectrum. apply in_map_iff. exists i.
        split; [reflexivity | apply in_seq; lia].
      - cbn [fst]. unfold fft_keeps.
        rewrite (proj2 (Rleb_true _ _) H0), (proj2 (Rltb_true _ _) Hlo),
          (proj2 (Rltb_true _ _) Hhi). reflexivity. }
    intros E. rewrite E in Hin. exact Hin. }
  destruct (np_linspace_returns lower upper upsample ltac:(lia))
    as [grid Hgrid].
  rewrite Hgrid. cbn [bind].
  destruct (np_linspace_length _ _ _ _ Hgrid) as [_ Hglen].
  unfold np_interp. destruct P as [|p P']; [congruence|].
  change (map (fun f => f / Q2R FFT_units) (map fst (p :: P')))
    with (fst p / Q2R FFT_units
          :: map (fun f => f / Q2R FFT_units) (map fst P')).
  cbv iota.
  match goal with
  | |- context [(?a =? ?b)%nat] =>
      replace (a =? b)%nat with true
        by (symmetry; apply Nat.eqb_eq; cbn [length];
            rewrite !length_map; reflexivity)
  end.
  cbn [bind].
  destruct (getitem_in_range (map (fun f => fdiv f FFT_units) grid) 1)
    as [w1 Hw1]; [rewrite length_map; lia|].
  destruct (getitem_in_range (map (fun f => fdiv f FFT_units) grid) 0)
    as [w0 Hw0]; [rewrite length_map; lia|].
  rewrite Hw1, Hw0. cbn [bind].
  destruct (np_linspace_step _ _ _ _ _ _ _ Hgrid Hw1 Hw0) as [_ Hstep].
  rewrite Hstep.
  eexists. split; [|reflexivity].
  rewrite !length_map. exact Hglen.
Qed.

(** A positive sample spacing, a non-empty waveform with a transform
    frequency strictly inside the band, a non-zero unit, at least two grid
    points and [0 < dims <= upsample]: the loop runs to its end. *)
Lemma wave2vec_integrate_returns (dt : R) (waveform : signal)
    (lower upper : Q) (dims : Z) (FFT_units : Q) (upsample : Z) (i : nat) :
  0 < dt -> (i < length waveform)%nat ->
  0 <= bin_frequency (length waveform) dt i ->
  Q2R lower < bin_frequency (length waveform) dt i < Q2R upper ->
  ~ (FFT_units == 0)%Q -> (2 <= upsample)%Z -> (0 < dims <= upsample)%Z ->
  exists s,
    wave2vec_integrate dt waveform lower upper dims FFT_units upsample = Ok s.
Proof.
  intros Hdt Hi H0 Hband HF Hup [Hd Hdu].
  destruct (wave2vec_front dt waveform lower upper dims FFT_units upsample i
              Hdt Hi H0 Hband Hup) as (uz & Hlen & Hfront).
  rewrite Hfront.
  destruct (dims =? 0)%Z eqn:Ed; [apply Z.eqb_eq in Ed; lia|]. cbn [bind].
  rewrite Hlen, Z2Nat.id by lia.
  rewrite Z.quot_div_nonneg by lia.
  apply wave2vec_loop_returns; [exact HF | |]; cbn [interval_width].
  - apply Z.div_str_pos. lia.
  - cbn [Nat.add]. rewrite Hlen. rewrite !Z2Nat.id by lia.
    pose proof (Z.mul_div_le upsample dims Hd). lia.
Qed.

End LoopReturns.

(** * Runs on a spectrum of one frequency *)

Section FlatSpectrum.
Local Open Scope R_scope.

Lemma interp_at_single (x0 f0 x : R) : interp_at [(x0, f0)] x = f0.
Proof. unfold interp_at. destruct (Rle_dec x x0); reflexivity. Qed.

Lemma np_interp_single (x : list R) (x0 f0 : R) :
  np_interp x [x0] [f0] = Ok (repeat f0 (length x)).
Proof.
  unfold np_interp. cbn [length Nat.eqb combine]. f_equal.
  induction x as [|a x IH]; [reflexivity|].
  cbn [map length repeat]. rewrite interp_at_single, IH. reflexivity.
Qed.

Lemma basic_simps_step (a b d : R) (rest : list R) :
  basic_simps (a :: b :: d :: rest)
  = 1 / 3 * (a + 4 * b + d) + basic_simps (d :: rest).
Proof. reflexivity. Qed.

Lemma basic_simps_flat (c : R) (k : nat) :
  basic_simps (repeat c (S (2 * k))) = 2 * c * INR k
  /\ basic_simps (repeat c (S (S (2 * k)))) = 2 * c * INR k.
Proof.
  induction k as [|k [IH1 IH2]].
  - cbn. split; ring.
  - replace (2 * S k)%nat with (S (S (2 * k))) by lia.
    split.
    + change (repeat c (S (S (S (2 * k)))))
        with (c :: c :: c :: repeat c (2 * k)).
      rewrite basic_simps_step.
      change (c :: repeat c (2 * k)) with (repeat c (S (2 * k))).
      rewrite IH1, S_INR. field.
    + change (repeat c (S (S (S (S (2 * k))))))
        with (c :: c :: c :: repeat c (S (2 * k))).
      rewrite basic_simps_step.
      change (c :: repeat c (S (2 * k))) with (repeat c (S (S (2 * k)))).
      rewrite IH2, S_INR. field.
Qed.

Lemma nth_repeat_in (c d : R) (n i : nat) :
  (i < n)%nat -> nth i (repeat c n) d = c.
Proof.
  revert i. induction n as [|n IH]; intros i Hi; [lia|].
  destruct i as [|i]; [reflexivity|]. cbn [repeat nth]. apply IH. lia.
Qed.

(** Simpson's rule on [n + 1] equal samples: [n] intervals of that height. *)
Lemma simps_flat (c : R) (n : nat) : simps (repeat c (S n)) = Ok (c * INR n).
Proof.
  change (repeat c (S n)) with (c :: repeat c n). unfold simps.
  change (c :: repeat c n) with (repeat c (S n)).
  rewrite repeat_length.
  destruct (Nat.even (S n)) eqn:E.
  - apply Nat.even_spec in E. destruct E as [m Hm].
    destruct m as [|m]; [lia|].
    assert (Hn : n = S (2 * m)) by lia. subst n.
    rewrite !nth_repeat_in by lia.
    change (tl (repeat c (S (S (2 * m))))) with (repeat c (S (2 * m))).
    destruct (basic_simps_flat c m) as [H1 H2]. rewrite H1, H2.
    f_equal. rewrite S_INR, mult_INR. change (INR 2) with 2. field.
  - assert (Ho : Nat.odd (S n) = true)
      by (unfold Nat.odd; rewrite E; reflexivity).
    apply Nat.odd_spec in Ho. destruct Ho as [m Hm].
    assert (Hn : n = (2 * m)%nat) by lia. subst n.
    destruct (basic_simps_flat c m) as [H1 _]. rewrite H1.
    f_equal. rewrite mult_INR. change (INR 2) with 2. ring.
Qed.

Lemma firstn_repeat_le {A : Type} (c : A) (n b : nat) :
  (b <= n)%nat -> firstn b (repeat c n) = repeat c b.
Proof.
  revert n. induction b as [|b IH]; intros n Hb; [reflexivity|].
  destruct n as [|n]; [lia|]. cbn [repeat firstn]. rewrite IH by lia.
  reflexivity.
Qed.

Lemma skipn_repeat_le {A : Type} (c : A) (a b : nat) :
  skipn a (repeat c b) = repeat c (b - a).
Proof.
  revert b. induction a as [|a IH]; intros b.
  - rewrite Nat.sub_0_r. reflexivity.
  - destruct b as [|b]; [reflexivity|]. cbn [repeat skipn Nat.sub]. apply IH.
Qed.

Lemma py_slice_repeat {A : Type} (c : A) (n a b : nat) :
  (b <= n)%nat -> py_slice (repeat c n) a b = repeat c (b - a).
Proof.
  intros Hb. unfold py_slice. rewrite firstn_repeat_le by exact Hb.
  apply skipn_repeat_le.
Qed.

Lemma repeat_snoc {A : Type} (c : A) (m : nat) :
  c :: repeat c m = repeat c m ++ [c].
Proof.
  induction m as [|m IH]; [reflexivity|].
  cbn [repeat app]. rewrite <- IH. reflexivity.
Qed.

(** The loop on interpolated values that are all [c]: every window of
    [interval_width] values has mass [c * (interval_width - 1)]. *)
Lemma wave2vec_loop_flat (c : R) (n : nat) (lower FFT_units : Q) :
  ~ (FFT_units == 0)%Q ->
  forall (m a : nat) (s : locals),
    (1 <= interval_width s)%Z ->
    (Z.of_nat (a + m) * interval_width s <= Z.of_nat n)%Z ->
    for_each (wave2vec_body (repeat c n) lower FFT_units) (seq a m) s
    = Ok (mkLocals
            (feature_vector s ++ repeat (c * IZR (interval_width s - 1)) m)
            (true_bounds s
             ++ map (fun k =>
                       fadd (fdiv lower FFT_units)
                            (fmul (binary64
                                     (inject_Z (Z.of_nat k * interval_width s)))
                                  (dw s)))
                    (seq a m))
            (if (m =? 0)%nat then j s else Some (Z.of_nat (a + m - 1)))
            (dw s) (interval_width s)).
Proof.
  intros HF. induction m as [|m IH]; intros a s Hw Hfit.
  - cbn [seq for_each repeat map Nat.eqb]. rewrite !app_nil_r.
    destruct s; reflexivity.
  - cbn [seq for_each]. unfold wave2vec_body at 1.
    rewrite py_slice_repeat by nia.
    replace (Z.to_nat ((Z.of_nat a + 1) * interval_width s)
             - Z.to_nat (Z.of_nat a * interval_width s))%nat
      with (S (Z.to_nat (interval_width s - 1))) by nia.
    rewrite simps_flat. cbn [bind].
    rewrite py_div_nonzero by exact HF. cbn [bind].
    rewrite IH; cbn [interval_width dw feature_vector true_bounds j];
      [|exact Hw | nia].
    rewrite INR_IZR_INZ, Z2Nat.id by lia.
    f_equal. f_equal.
    + rewrite <- app_assoc. cbn [app]. rewrite repeat_snoc.
      cbn [repeat]. rewrite <- repeat_snoc. reflexivity.
    + rewrite <- app_assoc. reflexivity.
    + destruct m as [|m]; cbn [Nat.eqb]; f_equal; lia.
Qed.

(** A run whose band holds one transform frequency. *)
Lemma wave2vec_integrate_flat (dt : R) (waveform : signal) (lower upper : Q)
    (dims : Z) (FFT_units : Q) (upsample : Z) (f0 m0 : R) :
  fft dt waveform (Some (Q2R lower)) (Some (Q2R upper)) = Ok ([f0], [m0]) ->
  ~ (FFT_units == 0)%Q -> (2 <= upsample)%Z -> (0 < dims <= upsample)%Z ->
  wave2vec_integrate dt waveform lower upper dims FFT_units upsample
  = Ok (mkLocals
          (repeat (m0 * IZR (upsample / dims - 1)) (Z.to_nat dims))
          (map (band_edge lower upper dims FFT_units upsample)
               (seq 0 (Z.to_nat dims)))
          (Some (dims - 1)%Z)
          (grid_step lower upper FFT_units upsample)
          (upsample / dims)).
Proof.
  intros Hfft HF Hup [Hd Hdu].
  unfold wave2vec_integrate. rewrite Hfft. cbn [bind fst snd map].
  destruct (np_linspace_returns lower upper upsample ltac:(lia))
    as [grid Hgrid].
  rewrite Hgrid. cbn [bind].
  destruct (np_linspace_length _ _ _ _ Hgrid) as [_ Hglen].
  rewrite np_interp_single. cbn [bind].
  destruct (getitem_in_range (map (fun f => fdiv f FFT_units) grid) 1)
    as [w1 Hw1]; [rewrite length_map; lia|].
  destruct (getitem_in_range (map (fun f => fdiv f FFT_units) grid) 0)
    as [w0 Hw0]; [rewrite length_map; lia|].
  rewrite Hw1, Hw0. cbn [bind].
  destruct (np_linspace_step _ _ _ _ _ _ _ Hgrid Hw1 Hw0) as [_ Hstep].
  rewrite Hstep.
  destruct (dims =? 0)%Z eqn:Ed; [apply Z.eqb_eq in Ed; lia|]. cbn [bind].
  rewrite repeat_length, !length_map, Hglen, Z2Nat.id by lia.
  rewrite Z.quot_div_nonneg by lia.
  pose proof (Z.div_str_pos upsample dims ltac:(lia)) as Hq.
  pose proof (Z.mul_div_le upsample dims Hd) as Hfit.
  rewrite wave2vec_loop_flat; cbn [interval_width dw feature_vector
                                    true_bounds j app];
    [|exact HF | lia | rewrite Nat.add_0_l, !Z2Nat.id by lia; lia].
  f_equal. f_equal.
  destruct (Z.to_nat dims) as [|m] eqn:Em; [lia|].
  cbn [Nat.eqb]. f_equal. lia.
Qed.

End FlatSpectrum.


(** * Runs of [wave2vec] on impulses *)

Section UnitImpulse.
Local Open Scope R_scope.

Lemma bin_magnitude_single (a : R) : bin_magnitude [a] 0 = Rabs a.
Proof.
  unfold bin_magnitude, dft_re, dft_im. cbn [length seq combine map Rsum
    fold_right fst snd].
  replace (2 * PI * INR 0 * INR 0 / INR 1) with 0
    by (change (INR 0) with 0; unfold Rdiv; ring).
  rewrite cos_0, sin_0.
  replace (a * 1 + 0) with a by ring. replace (- (a * 0) + 0) with 0 by ring.
  rewrite Rsqr_0, Rplus_0_r. apply sqrt_Rsqr_abs.
Qed.

Lemma full_spectrum_impulse : full_spectrum 1 [1] = [(0, 1)].
Proof.
  unfold full_spectrum. cbn [length seq map].
  rewrite bin_magnitude_single, Rabs_R1.
  unfold bin_frequency.
  replace (0 <? (1 - 1) / 2 + 1)%nat with true by reflexivity.
  f_equal. f_equal. change (IZR (Z.of_nat 0)) with 0. ring.
Qed.

Lemma fft_impulse : fft 1 [1] (Some (-1)) (Some 1) = Ok ([0], [1]).
Proof.
  rewrite fft_pairs by (lra || discriminate).
  rewrite full_spectrum_impulse. cbn [filter fst].
  assert (K : fft_keeps (Some (-1)) (Some 1) 0 = true).
  { unfold fft_keeps.
    rewrite (proj2 (Rleb_true 0 0)), (proj2 (Rltb_true (-1) 0)),
      (proj2 (Rltb_true 0 1)) by lra. reflexivity. }
  rewrite K. reflexivity.
Qed.

Lemma Q2R_inject_Z (z : Z) : Q2R (inject_Z z) = IZR z.
Proof. unfold Q2R, inject_Z. cbn [Qnum Qden]. field. Qed.

Lemma fft_impulse_band :
  fft 1 [1] (Some (Q2R (-1))) (Some (Q2R 1)) = Ok ([0], [1]).
Proof.
  change (-1)%Q with (inject_Z (-1)). change 1%Q with (inject_Z 1).
  rewrite !Q2R_inject_Z. exact fft_impulse.
Qed.

(** The one-sample impulse, the band from -1 to 1 in units of 1, a grid of
    [upsample] points cut into [dims] windows. *)
Lemma wave2vec_integrate_impulse (dims upsample : Z) :
  (2 <= upsample)%Z -> (0 < dims <= upsample)%Z ->
  wave2vec_integrate 1 [1] (-1) 1 dims 1 upsample
  = Ok (mkLocals
          (repeat (1 * IZR (upsample / dims - 1)) (Z.to_nat dims))
          (map (band_edge (-1) 1 dims 1 upsample) (seq 0 (Z.to_nat dims)))
          (Some (dims - 1)%Z) (grid_step (-1) 1 1 upsample)
          (upsample / dims)).
Proof.
  intros Hup Hd.
  apply (wave2vec_integrate_flat 1 [1] (-1) 1 dims 1 upsample 0 1
           fft_impulse_band); [discriminate | exact Hup | exact Hd].
Qed.

Lemma mass_sum_impulse : mass_sum 1 [1] (-1) 1 1 1 3 = Ok 2.
Proof.
  unfold mass_sum. rewrite wave2vec_integrate_impulse by lia.
  cbn [bind feature_vector]. f_equal.
  replace (Z.to_nat 1) with 1%nat by reflexivity.
  replace (3 / 1 - 1)%Z with 2%Z by reflexivity.
  cbn [repeat Rsum fold_right]. ring.
Qed.

Lemma coverage_gap_impulse :
  float64_gt (coverage_gap (-1) 1 1 1 3) (binary64 (1 # 100)) = false.
Proof. vm_compute. reflexivity. Qed.

Lemma wave2vec_impulse :
  wave2vec 1 [1] (-1) 1 1 1 3 = Ok ([Fin 1], [(-1)%Q], 3%Q).
Proof.
  unfold wave2vec.
  pose proof (wave2vec_integrate_impulse 1 3 ltac:(lia) ltac:(lia)) as Hs.
  rewrite Hs. cbn [bind].
  rewrite (wave2vec_finish_check _ _ _ _ _ _ _ _ Hs) by lia.
  rewrite coverage_gap_impulse. cbn [feature_vector].
  replace (Z.to_nat 1) with 1%nat by reflexivity.
  replace (3 / 1 - 1)%Z with 2%Z by reflexivity.
  cbn [repeat map Rsum fold_right seq].
  assert (E1 : np_div (1 * 2) (1 * 2 + 0) = Fin 1).
  { unfold np_div. destruct (Req_dec_T (1 * 2 + 0) 0) as [H|_]; [lra|].
    f_equal. field. }
  assert (E2 : band_edge (-1) 1 1 1 3 0 = (-1)%Q)
    by (vm_compute; reflexivity).
  assert (E3 : fmul (binary64 (inject_Z (3 / 1))) (grid_step (-1) 1 1 3)
               = 3%Q) by (vm_compute; reflexivity).
  rewrite E1, E2, E3. reflexivity.
Qed.

(** Eight grid points cut into three windows of two leave two points out. *)
Lemma mass_sum_impulse_coarse : mass_sum 1 [1] (-1) 1 3 1 8 = Ok 3.
Proof.
  unfold mass_sum. rewrite wave2vec_integrate_impulse by lia.
  cbn [bind feature_vector]. f_equal.
  replace (Z.to_nat 3) with 3%nat by reflexivity.
  replace (8 / 3 - 1)%Z with 1%Z by reflexivity.
  cbn [repeat Rsum fold_right]. ring.
Qed.

Lemma coverage_gap_impulse_coarse :
  float64_gt (coverage_gap (-1) 1 3 1 8) (binary64 (1 # 100)) = true.
Proof. vm_compute. reflexivity. Qed.

End UnitImpulse.

Section ThreeSamples.
Local Open Scope R_scope.

Lemma Q2R_zero : Q2R 0 = 0.
Proof. change 0%Q with (inject_Z 0). apply Q2R_inject_Z. Qed.

(** The three-sample impulse with spacing 1 has its only positive transform
    frequency at 1/3: a band from 0 to an integer [upper >= 1] holds that
    frequency and no other. *)
Lemma fft_three_band (upper : Z) :
  (1 <= upper)%Z ->
  fft 1 [1; 0; 0] (Some (Q2R 0)) (Some (Q2R (inject_Z upper)))
  = Ok ([1 / 3], [1]).
Proof.
  intros Hu. rewrite Q2R_zero, Q2R_inject_Z.
  apply IZR_le in Hu. apply fft_three; lra.
Qed.

Lemma wave2vec_integrate_three (upper dims upsample : Z) :
  (1 <= upper)%Z -> (2 <= upsample)%Z -> (0 < dims <= upsample)%Z ->
  wave2vec_integrate 1 [1; 0; 0] 0 (inject_Z upper) dims 1 upsample
  = Ok (mkLocals
          (repeat (1 * IZR (upsample / dims - 1)) (Z.to_nat dims))
          (map (band_edge 0 (inject_Z upper) dims 1 upsample)
               (seq 0 (Z.to_nat dims)))
          (Some (dims - 1)%Z) (grid_step 0 (inject_Z upper) 1 upsample)
          (upsample / dims)).
Proof.
  intros Hu Hup Hd.
  apply (wave2vec_integrate_flat 1 [1; 0; 0] 0 (inject_Z upper) dims 1
           upsample (1 / 3) 1 (fft_three_band upper Hu));
    [discriminate | exact Hup | exact Hd].
Qed.

(** 101 grid points cut into three windows of 33: each window has mass 32. *)
Lemma mass_sum_three (upper : Z) :
  (1 <= upper)%Z ->
  mass_sum 1 [1; 0; 0] 0 (inject_Z upper) 3 1 101 = Ok 96.
Proof.
  intros Hu. unfold mass_sum. rewrite wave2vec_integrate_three by lia.
  cbn [bind feature_vector]. f_equal.
  replace (Z.to_nat 3) with 3%nat by reflexivity.
  replace (101 / 3 - 1)%Z with 32%Z by reflexivity.
  cbn [repeat Rsum fold_right]. ring.
Qed.

(** Three windows of 33 points reach grid point 99 of 100, so that exactly
    one hundredth of the band is left out.  Computed in binary64 the
    uncovered part of the band from 0 to 1 comes out above the double 0.01,
    that of the band from 0 to 500 does not. *)
Lemma coverage_gap_on_threshold :
  coverage_gap 0 1 3 1 101
  = finite (45035996273705 # 4503599627370496)
  /\ binary64 (1 # 100) = 5764607523034235 # 576460752303423488
  /\ (binary64 (1 # 100) < 45035996273705 # 4503599627370496)%Q
  /\ coverage_gap 0 500 3 1 101 = finite (binary64 (1 # 100)).
Proof. vm_compute. repeat split; reflexivity. Qed.

(** Seven windows of 1428 points on the grid of 10001 points over the band
    from 0 to 500. *)
Lemma coverage_gap_seven :
  float64_gt (coverage_gap 0 500 7 1 10001) (binary64 (1 # 100)) = false.
Proof. vm_compute. reflexivity. Qed.

End ThreeSamples.

Section FeatureClaims.
Local Open Scope R_scope.

Lemma moderate_0 : moderate 0.
Proof. left. reflexivity. Defined.

Lemma moderate_1 : moderate 1.
Proof. right. split; vm_compute; discriminate. Defined.

Lemma moderate_m1 : moderate (-1).
Proof. right. split; vm_compute; discriminate. Defined.

Lemma moderate_500 : moderate 500.
Proof. right. split; vm_compute; discriminate. Defined.

(** C1.  Whenever [wave2vec] returns and the sum of the sub-band masses is not
    zero, every entry of the feature vector is a finite number and the entries
    sum to 1. *)
Theorem wave2vec_feature_vector_sums_to_one :
  forall (dt : R) (waveform : signal) (lower upper : Q) (dims : Z)
         (FFT_units : Q) (upsample : Z)
         (fv : list npfloat) (edges : list Q) (spacing : Q) (total : R),
    wave2vec dt waveform lower upper dims FFT_units upsample
      = Ok (fv, edges, spacing) ->
    mass_sum dt waveform lower upper dims FFT_units upsample = Ok total ->
    total <> 0 ->
    exists entries, fv = map Fin entries /\ Rsum entries = 1.
Proof.
  intros dt y lower upper dims F upsample fv edges spacing total Hw Hm Ht.
  unfold wave2vec in Hw. unfold mass_sum in Hm.
  apply bind_Ok_inv in Hw. destruct Hw as (s & Hs & Hf).
  rewrite Hs in Hm. cbn [bind] in Hm. apply Ok_inj in Hm.
  pose proof (wave2vec_needs_positive_dims _ _ _ _ _ _ _ _ _ Hs Hf) as Hd.
  rewrite (wave2vec_finish_check _ _ _ _ _ _ _ _ Hs Hd) in Hf.
  destruct (float64_gt _ _); [discriminate|].
  apply Ok_inj in Hf. inversion Hf as [[Hfv Hedges Hsp]].
  rewrite Hm. exists (map (fun m => m / total) (feature_vector s)).
  split; [apply np_div_finite; exact Ht|].
  rewrite Rsum_scaled, Hm. unfold Rdiv. apply Rinv_r. exact Ht.
Qed.

Lemma wave2vec_feature_vector_sums_to_one_witness :
  exists entries, [Fin 1] = map Fin entries /\ Rsum entries = 1.
Proof.
  apply (wave2vec_feature_vector_sums_to_one 1 [1] (-1) 1 1 1 3
           [Fin 1] [(-1)%Q] 3%Q 2 wave2vec_impulse mass_sum_impulse).
  lra.
Defined.

(** C2.  For a positive sample spacing, [lower < upper] and
    [0 < dims <= upsample], band limits and a unit of moderate magnitude,
    once the integration loop has produced masses with a non-zero sum:
    [wave2vec] raises the error asking for a larger upsampling number exactly
    when the uncovered part of the band, relative to the band and computed in
    binary64 as the code computes it, exceeds the double 0.01, and returns
    otherwise. *)
Theorem wave2vec_raises_iff_gap :
  forall (dt : R) (waveform : signal) (lower upper : Q) (dims : Z)
         (FFT_units : Q) (upsample : Z) (total : R),
    0 < dt -> (lower < upper)%Q -> (0 < dims <= upsample)%Z ->
    moderate lower -> moderate upper -> moderate FFT_units ->
    mass_sum dt waveform lower upper dims FFT_units upsample = Ok total ->
    total <> 0 ->
    (wave2vec dt waveform lower upper dims FFT_units upsample
       = Raise (ValueError "Increase upsampling number")
     <-> float64_gt (coverage_gap lower upper dims FFT_units upsample)
                    (binary64 (1 # 100)) = true)
    /\ (float64_gt (coverage_gap lower upper dims FFT_units upsample)
                   (binary64 (1 # 100)) = false ->
        exists fv edges spacing,
          wave2vec dt waveform lower upper dims FFT_units upsample
          = Ok (fv, edges, spacing)).
Proof.
  intros dt y lower upper dims F upsample total _ _ [Hd _] _ _ _ Hm _.
  unfold mass_sum in Hm. apply bind_Ok_inv in Hm.
  destruct Hm as (s & Hs & _).
  unfold wave2vec. rewrite Hs. cbn [bind].
  rewrite (wave2vec_finish_check _ _ _ _ _ _ _ _ Hs Hd).
  destruct (float64_gt (coverage_gap lower upper dims F upsample)
                       (binary64 (1 # 100))).
  - split; [split; reflexivity | discriminate].
  - split; [split; discriminate|].
    intros _. eexists. eexists. eexists. reflexivity.
Qed.

(** On the threshold: 101 grid points and 3 windows leave exactly one
    hundredth of any band uncovered.  Over the band from 0 to 1 the quotient
    computed in binary64 is 0.010000000000000009 and the call raises; over
    the band from 0 to 500 it is the double 0.01 and the call returns. *)
Lemma wave2vec_raises_iff_gap_witness :
  wave2vec 1 [1; 0; 0] 0 1 3 1 101
  = Raise (ValueError "Increase upsampling number")
  /\ (exists fv edges spacing,
        wave2vec 1 [1; 0; 0] 0 500 3 1 101 = Ok (fv, edges, spacing))
  /\ wave2vec 1 [1] (-1) 1 3 1 8
     = Raise (ValueError "Increase upsampling number").
Proof.
  split; [|split].
  - apply (proj1 (wave2vec_raises_iff_gap 1 [1; 0; 0] 0 1 3 1 101 96
                    ltac:(lra) ltac:(reflexivity) ltac:(lia)
                    moderate_0 moderate_1 moderate_1
                    (mass_sum_three 1 ltac:(lia)) ltac:(lra))).
    vm_compute. reflexivity.
  - apply (proj2 (wave2vec_raises_iff_gap 1 [1; 0; 0] 0 500 3 1 101 96
                    ltac:(lra) ltac:(reflexivity) ltac:(lia)
                    moderate_0 moderate_500 moderate_1
                    (mass_sum_three 500 ltac:(lia)) ltac:(lra))).
    vm_compute. reflexivity.
  - apply (proj1 (wave2vec_raises_iff_gap 1 [1] (-1) 1 3 1 8 3
                    ltac:(lra) ltac:(reflexivity) ltac:(lia)
                    moderate_m1 moderate_1 moderate_1
                    mass_sum_impulse_coarse ltac:(lra))).
    exact coverage_gap_impulse_coarse.
Defined.

(** A run with seven windows of 1428 grid points over the band from 0 to
    500. *)
Lemma wave2vec_seven_windows :
  exists fv,
    wave2vec 1 [1; 0; 0] 0 500 7 1 10001
    = Ok (fv,
          map (band_edge 0 500 7 1 10001) (seq 0 7),
          fmul (binary64 (inject_Z 1428)) (grid_step 0 500 1 10001)).
Proof.
  unfold wave2vec.
  pose proof (wave2vec_integrate_three 500 7 10001
                ltac:(lia) ltac:(lia) ltac:(lia)) as Hs.
  change (inject_Z 500) with 500%Q in Hs.
  rewrite Hs. cbn [bind].
  rewrite (wave2vec_finish_check _ _ _ _ _ _ _ _ Hs) by lia.
  rewrite coverage_gap_seven.
  eexists. reflexivity.
Qed.

(** C3, counterexample.  Seven windows on the default grid of 10001 points
    over the band from 0 to 500: the spacing is the double 71.4, and band
    edges 4 and 5 are the doubles 285.6 and 357, which are less than the
    spacing apart (71.39999999999998, exactly and also when subtracted in
    binary64); edges 5 and 6 are further apart than the spacing. *)
Lemma band_edges_not_equally_spaced :
  exists fv edges spacing,
    wave2vec 1 [1; 0; 0] 0 500 7 1 10001 = Ok (fv, edges, spacing)
    /\ spacing = binary64 (714 # 10)
    /\ nth 4 edges 0%Q = binary64 (2856 # 10)
    /\ (nth 5 edges 0 - nth 4 edges 0 < spacing)%Q
    /\ fsub (nth 5 edges 0%Q) (nth 4 edges 0%Q) <> spacing
    /\ (spacing < nth 6 edges 0 - nth 5 edges 0)%Q.
Proof.
  destruct wave2vec_seven_windows as [fv Hrun].
  eexists. eexists. eexists. split; [exact Hrun|].
  vm_compute. repeat split; try reflexivity. discriminate.
Qed.

(** C3, amended.  Whenever [wave2vec] returns, for band limits and a unit of
    moderate magnitude, there are exactly [dims] band
    edges; edge [k] is the double that the code's expression
    [lower/FFT_units + k * interval_width * dw] gives in binary64, with
    [interval_width = floor(upsample/dims)] and [dw] the difference of the
    first two grid points; the spacing is the double [interval_width * dw].
    Each edge is rounded on its own, so that consecutive edges need not be
    exactly one spacing apart. *)
Theorem wave2vec_band_edges :
  forall (dt : R) (waveform : signal) (lower upper : Q) (dims : Z)
         (FFT_units : Q) (upsample : Z)
         (fv : list npfloat) (edges : list Q) (spacing : Q),
    moderate lower -> moderate upper -> moderate FFT_units ->
    wave2vec dt waveform lower upper dims FFT_units upsample
      = Ok (fv, edges, spacing) ->
    Z.of_nat (length edges) = dims
    /\ (forall k, (k < length edges)%nat ->
          nth k edges 0%Q
          = fadd (fdiv lower FFT_units)
                 (fmul (binary64 (inject_Z (Z.of_nat k * (upsample / dims))))
                       (grid_step lower upper FFT_units upsample)))
    /\ spacing
       = fmul (binary64 (inject_Z (upsample / dims)))
              (grid_step lower upper FFT_units upsample).
Proof.
  intros dt y lower upper dims F upsample fv edges spacing _ _ _ Hw.
  unfold wave2vec in Hw.
  apply bind_Ok_inv in Hw. destruct Hw as (s & Hs & Hf).
  pose proof (wave2vec_needs_positive_dims _ _ _ _ _ _ _ _ _ Hs Hf) as Hd.
  rewrite (wave2vec_finish_check _ _ _ _ _ _ _ _ Hs Hd) in Hf.
  destruct (float64_gt _ _); [discriminate|].
  apply Ok_inj in Hf. inversion Hf as [[Hfv Hedges Hsp]]. clear Hf.
  assert (Hlen : length (map (band_edge lower upper dims F upsample)
                             (seq 0 (Z.to_nat dims))) = Z.to_nat dims)
    by (rewrite length_map, length_seq; reflexivity).
  split; [rewrite Hlen; lia|].
  split; [|reflexivity].
  intros k Hk. rewrite Hlen in Hk.
  rewrite nth_map_seq by exact Hk. reflexivity.
Qed.

Lemma wave2vec_band_edges_witness :
  exists edges spacing,
    Z.of_nat (length edges) = 7%Z
    /\ nth 5 edges 0%Q
       = fadd (fdiv 0 1)
              (fmul (binary64 (inject_Z (Z.of_nat 5 * (10001 / 7))))
                    (grid_step 0 500 1 10001))
    /\ nth 5 edges 0%Q = 357%Q
    /\ spacing = binary64 (714 # 10).
Proof.
  destruct wave2vec_seven_windows as [fv Hrun].
  destruct (wave2vec_band_edges 1 [1; 0; 0] 0 500 7 1 10001 _ _ _
              moderate_0 moderate_500 moderate_1 Hrun)
    as (Hlen & Hnth & Hsp).
  eexists. eexists. split; [exact Hlen|].
  split; [apply Hnth; vm_compute; lia|].
  split; vm_compute; reflexivity.
Defined.

End FeatureClaims.

(** * Amplitude scaling through the pipeline *)

Section ScalingFacts.
Local Open Scope R_scope.

Variable c : R.







Hypothesis c_pos : 0 < c.




















End ScalingFacts.

Section ScalingClaim.
Local Open Scope R_scope.



End ScalingClaim.

(** * Further properties: clipping detection *)

Section ClippingMore.
Local Open Scope Q_scope.

Lemma Qabs_opp_eq (x : Q) : Qabs (- x) = Qabs x.
Proof. destruct x as [n d]. unfold Qabs, Qopp. cbn. rewrite Z.abs_opp. reflexivity. Qed.

Lemma np_abs_opp (sig : waveform) : np_abs (map Qopp sig) = np_abs sig.
Proof.
  unfold np_abs. rewrite map_map. apply map_ext. intros x. apply Qabs_opp_eq.
Qed.

(** X1.  [is_clipped] takes magnitudes first: negating every sample changes
    neither the result nor the exception. *)
Theorem is_clipped_sign_flip :
  forall sig : waveform, is_clipped (map Qopp sig) = is_clipped sig.
Proof.
  intros sig. unfold is_clipped. rewrite np_abs_opp. reflexivity.
Qed.

Lemma filter_length_le {A : Type} (p : A -> bool) (l : list A) :
  (length (filter p l) <= length l)%nat.
Proof.
  induction l as [|x l IH]; simpl; [lia|]. destruct (p x); simpl; lia.
Qed.

(** X2.  [is_clipped] raises exactly on the empty waveform ([np.max] of an
    empty array), and it reports clipping only for waveforms of at least two
    samples. *)
Theorem is_clipped_small_waveforms :
  forall sig : waveform,
    (sig = [] <-> exists e, is_clipped sig = Raise e)
    /\ (sig <> [] -> exists b, is_clipped sig = Ok b)
    /\ (is_clipped sig = Ok true -> (2 <= length sig)%nat).
Proof.
  intros sig. destruct sig as [|x sig].
  - split; [|split].
    + split; [intros _; eexists; reflexivity | reflexivity].
    + congruence.
    + discriminate.
  - split; [|split].
    + split; [discriminate | intros [e H]; discriminate H].
    + intros _. eexists. reflexivity.
    + unfold is_clipped. cbn [np_abs map np_max bind]. intros H.
      apply Ok_inj in H. apply Nat.ltb_lt in H.
      pose proof (filter_length_le
                    (fun s => Qeq_bool s (running_max (np_round 2 (Qabs x))
                                (map (np_round 2) (map Qabs sig))))
                    (Qabs x :: map Qabs sig)) as Hle.
      cbn [length] in Hle |- *. rewrite length_map in Hle. lia.
Qed.

Lemma Qeq_bool_congr (x y m : Q) : x == y -> Qeq_bool x m = Qeq_bool y m.
Proof.
  intros E. destruct (Qeq_bool y m) eqn:Hy.
  - apply Qeq_bool_iff. apply Qeq_bool_iff in Hy. rewrite E. exact Hy.
  - destruct (Qeq_bool x m) eqn:Hx; [|reflexivity].
    apply Qeq_bool_iff in Hx. rewrite E in Hx.
    apply Qeq_bool_iff in Hx. congruence.
Qed.

Lemma filter_map_length {A B : Type} (f : A -> B) (p : B -> bool) (l : list A) :
  length (filter p (map f l)) = length (filter (fun x => p (f x)) l).
Proof.
  induction l as [|x l IH]; [reflexivity|].
  simpl. destruct (p (f x)); simpl; rewrite IH; reflexivity.
Qed.

Lemma filter_ext_in_length {A : Type} (p q : A -> bool) (l : list A) :
  (forall x, In x l -> p x = q x) ->
  length (filter p l) = length (filter q l).
Proof.
  intros H. rewrite (filter_ext_in p q l H). reflexivity.
Qed.

(** X3.  On samples recorded to two decimals (every magnitude is what
    [np.round] makes of it, and small enough for the scaling by 100 not to
    overflow) the count over the unrounded samples is the count over the
    rounded ones: [is_clipped] returns what the detector of the
    specification returns. *)
Theorem is_clipped_on_two_decimal_data :
  forall sig : waveform,
    Forall (fun s => Qabs s <= 2 ^ 1000 /\ np_round 2 (Qabs s) == Qabs s)
           sig ->
    is_clipped sig = is_clipped_as_specified sig.
Proof.
  intros sig Hall. unfold is_clipped, is_clipped_as_specified.
  destruct (np_max (map (np_round 2) (np_abs sig))) as [mx|e]; [|reflexivity].
  cbn [bind]. f_equal. f_equal. rewrite filter_map_length.
  apply filter_ext_in_length. intros a Ha.
  unfold np_abs in Ha. apply in_map_iff in Ha. destruct Ha as (s & <- & Hs).
  rewrite Forall_forall in Hall. symmetry. apply Qeq_bool_congr.
  apply Hall. exact Hs.
Qed.

Lemma is_clipped_on_two_decimal_data_witness :
  is_clipped [binary64 (57 # 100); - binary64 (57 # 100); binary64 (1 # 10)]
  = is_clipped_as_specified
      [binary64 (57 # 100); - binary64 (57 # 100); binary64 (1 # 10)].
Proof.
  apply is_clipped_on_two_decimal_data.
  constructor; [split; vm_compute; [discriminate | reflexivity]|].
  constructor; [split; vm_compute; [discriminate | reflexivity]|].
  constructor; [split; vm_compute; [discriminate | reflexivity]|].
  constructor.
Defined.

End ClippingMore.

Section ClippingMoreWitnesses.
Local Open Scope Q_scope.

Lemma is_clipped_small_waveforms_witness :
  (2 <= length [1; 1])%nat.
Proof.
  apply (proj2 (proj2 (is_clipped_small_waveforms [1; 1]))).
  vm_compute. reflexivity.
Defined.

End ClippingMoreWitnesses.

(** * Further properties: the pair filter *)

Section RemoveClippedMore.
Local Open Scope Q_scope.

Lemma is_clipped_is_clipped (sig : waveform) :
  sig <> [] -> is_clipped sig = Ok (clipped sig).
Proof.
  intros H. unfold clipped. destruct sig as [|x sig]; [congruence|].
  reflexivity.
Qed.

Lemma survivors_filter (l : list entry) :
  Forall (fun x => chan1 x <> [] /\ chan2 x <> []) l ->
  survivors l
  = Ok (filter (fun x => negb (clipped (chan1 x) && clipped (chan2 x))) l).
Proof.
  induction 1 as [|x l [H1 H2] _ IH]; [reflexivity|].
  cbn [survivors filter]. unfold pair_clipped.
  rewrite (is_clipped_is_clipped (chan1 x) H1),
    (is_clipped_is_clipped (chan2 x) H2). cbn [bind]. rewrite IH.
  destruct (clipped (chan1 x)), (clipped (chan2 x)); reflexivity.
Qed.

Lemma zip4_nonempty (v1 v2 : list waveform) (ev : list Z) (time : list Q) :
  Forall (fun s => s <> []) v1 -> Forall (fun s => s <> []) v2 ->
  Forall (fun x => chan1 x <> [] /\ chan2 x <> []) (zip4 v1 v2 ev time).
Proof.
  intros H1 H2. apply Forall_forall. intros [[[a b] e] t] Hin.
  unfold zip4 in Hin. apply in_combine_l in Hin. apply in_combine_l in Hin.
  rewrite Forall_forall in H1, H2. cbn [chan1 chan2 fst snd]. split.
  - apply H1. exact (in_combine_l _ _ _ _ Hin).
  - apply H2. exact (in_combine_r _ _ _ _ Hin).
Qed.

(** X4.  With timestamps, sequences of one length and no empty waveform,
    [remove_clipped] returns the events whose two channels are not both
    clipped, in their order, the four output sequences holding the same
    events position by position. *)
Theorem remove_clipped_keeps_unclipped_events :
  forall (v1 v2 : list waveform) (ev : list Z) (time : list Q),
    length v2 = length v1 -> length ev = length v1 ->
    length time = length v1 -> time <> [] ->
    Forall (fun s => s <> []) v1 -> Forall (fun s => s <> []) v2 ->
    let kept := filter (fun x => negb (clipped (chan1 x) && clipped (chan2 x)))
                       (zip4 v1 v2 ev time) in
    remove_clipped v1 v2 ev time
    = Ok (Ret4 (map chan1 kept) (map chan2 kept) (map event kept)
               (map stamp kept)).
Proof.
  intros v1 v2 ev time L2 L3 L4 Ht H1 H2 kept.
  rewrite remove_clipped_with_time by assumption.
  rewrite (survivors_filter _ (zip4_nonempty v1 v2 ev time H1 H2)).
  reflexivity.
Qed.

Lemma remove_clipped_keeps_unclipped_events_witness :
  remove_clipped [[1; 1]; [1 # 2; 1 # 3]; [2; 2]]
                 [[1; 1]; [1; 1]; [1 # 5; 1]] [1; 2; 3]%Z [10; 20; 30]
  = Ok (Ret4 [[1 # 2; 1 # 3]; [2; 2]] [[1; 1]; [1 # 5; 1]] [2; 3]%Z [20; 30]).
Proof.
  apply (remove_clipped_keeps_unclipped_events
           [[1; 1]; [1 # 2; 1 # 3]; [2; 2]]
           [[1; 1]; [1; 1]; [1 # 5; 1]] [1; 2; 3]%Z [10; 20; 30]);
    try reflexivity; try discriminate; repeat constructor; discriminate.
Defined.

Lemma loop_judges_every_pair (v1 v2 : list waveform) (ev : list Z)
    (time : list Q) :
  forall (idx : list nat) (h h' : holders),
    for_each (remove_clipped_body v1 v2 ev time) idx h = Ok h' ->
    forall i, In i idx -> exists b, both_clipped v1 v2 i = Ok b.
Proof.
  induction idx as [|k idx IH]; intros h h' H i Hi; [destruct Hi|].
  cbn [for_each] in H. apply bind_Ok_inv in H. destruct H as (s & Hb & Hrest).
  destruct Hi as [<-|Hi].
  - unfold remove_clipped_body in Hb. apply bind_Ok_inv in Hb.
    destruct Hb as (b & Hb & _). exists b. exact Hb.
  - exact (IH _ _ Hrest i Hi).
Qed.

(** X5.  [remove_clipped] judges channel 1 of every event: if it returns, with
    or without timestamps, no waveform of channel 1 is empty. *)
Theorem remove_clipped_needs_samples :
  forall (v1 v2 : list waveform) (ev : list Z) (time : list Q) (out : filtered),
    remove_clipped v1 v2 ev time = Ok out ->
    Forall (fun s => s <> []) v1.
Proof.
  intros v1 v2 ev time out H.
  assert (Hloop : exists h0 h,
            for_each (remove_clipped_body v1 v2 ev time)
                     (seq 0 (length v1)) h0 = Ok h).
  { unfold remove_clipped in H.
    destruct (negb (length time =? 0)%nat);
      apply bind_Ok_inv in H; destruct H as (h & Hh & _); eauto. }
  destruct Hloop as (h0 & h & Hloop).
  apply Forall_forall. intros s Hs E. subst s.
  apply In_nth_error in Hs. destruct Hs as [i Hi].
  assert (Hlt : (i < length v1)%nat)
    by (apply (proj1 (nth_error_Some v1 i)); unfold waveform in *; congruence).
  destruct (loop_judges_every_pair v1 v2 ev time _ _ _ Hloop i) as [b Hb].
  { apply in_seq. lia. }
  unfold both_clipped, getitem in Hb. unfold waveform in *.
  rewrite Hi in Hb. discriminate Hb.
Qed.

Lemma remove_clipped_needs_samples_witness :
  Forall (fun s : waveform => s <> []) [[1; 1]].
Proof.
  apply (remove_clipped_needs_samples [[1; 1]] [[1; 1]] [1%Z] [0]
           (Ret4 [] [] [] [])).
  vm_compute. reflexivity.
Defined.

End RemoveClippedMore.

(** * Further properties: channel selection *)

Section SelectionMore.
Local Open Scope Q_scope.

(** X6.  For two non-empty waveforms, of any lengths, [max_sig] returns the
    one that holds a sample of the largest magnitude of both, and no sample
    of the waveform [min_sig] returns exceeds that magnitude. *)
Theorem max_sig_holds_the_peak :
  forall a b : waveform,
    a <> [] -> b <> [] ->
    exists s t y,
      max_sig a b = Ok s /\ min_sig a b = Ok t
      /\ In y s
      /\ (forall x, In x a \/ In x b -> Qabs x <= Qabs y)
      /\ (forall x, In x t -> Qabs x <= Qabs y).
Proof.
  intros a b Ha Hb.
  destruct (py_max (np_abs a)) as [p|e] eqn:Hp;
    [|destruct a; [congruence | discriminate]].
  destruct (py_max (np_abs b)) as [q|e] eqn:Hq;
    [|destruct b; [congruence | discriminate]].
  destruct (py_max_peak a p Hp) as [(ya & Hya & Epa) Hua].
  destruct (py_max_peak b q Hq) as [(yb & Hyb & Epb) Hub].
  unfold max_sig, min_sig. rewrite Hp, Hq. cbn [bind].
  destruct (Qcompare p q) eqn:E.
  - apply Qeq_alt in E. exists b, a, yb. repeat split; try assumption.
    + intros x [Hx|Hx]; rewrite <- Epb.
      * rewrite <- E. apply Hua. exact Hx.
      * apply Hub. exact Hx.
    + intros x Hx. rewrite <- Epb, <- E. apply Hua. exact Hx.
  - apply Qlt_alt in E. exists b, a, yb. repeat split; try assumption.
    + intros x [Hx|Hx]; rewrite <- Epb.
      * apply (Qle_trans _ p); [apply Hua; exact Hx | apply Qlt_le_weak; exact E].
      * apply Hub. exact Hx.
    + intros x Hx. rewrite <- Epb.
      apply (Qle_trans _ p); [apply Hua; exact Hx | apply Qlt_le_weak; exact E].
  - apply Qgt_alt in E. exists a, b, ya. repeat split; try assumption.
    + intros x [Hx|Hx]; rewrite <- Epa.
      * apply Hua. exact Hx.
      * apply (Qle_trans _ q); [apply Hub; exact Hx | apply Qlt_le_weak; exact E].
    + intros x Hx. rewrite <- Epa.
      apply (Qle_trans _ q); [apply Hub; exact Hx | apply Qlt_le_weak; exact E].
Qed.

Lemma max_sig_holds_the_peak_witness :
  exists s t y,
    max_sig [1; -3] [2] = Ok s /\ min_sig [1; -3] [2] = Ok t /\ In y s.
Proof.
  destruct (max_sig_holds_the_peak [1; -3] [2] ltac:(discriminate)
              ltac:(discriminate)) as (s & t & y & Hs & Ht & Hy & _).
  exists s, t, y. repeat split; assumption.
Defined.

(** X7.  [max_sig] and [min_sig] return exactly when both waveforms are
    non-empty; an empty one makes the builtin [max] raise [ValueError]. *)
Theorem max_sig_min_sig_empty :
  forall a b : waveform,
    ((exists s, max_sig a b = Ok s) <-> a <> [] /\ b <> [])
    /\ ((exists s, min_sig a b = Ok s) <-> a <> [] /\ b <> [])
    /\ (a = [] \/ b = [] ->
        max_sig a b = Raise (ValueError "max() arg is an empty sequence")
        /\ min_sig a b = Raise (ValueError "max() arg is an empty sequence")).
Proof.
  intros a b. unfold max_sig, min_sig.
  destruct a as [|x a], b as [|y b]; cbn [np_abs map py_max bind].
  - split; [|split].
    + split; [intros [s H]; discriminate H | intros [H1 H2]; congruence].
    + split; [intros [s H]; discriminate H | intros [H1 H2]; congruence].
    + intros _; split; reflexivity.
  - split; [|split].
    + split; [intros [s H]; discriminate H | intros [H1 H2]; congruence].
    + split; [intros [s H]; discriminate H | intros [H1 H2]; congruence].
    + intros _; split; reflexivity.
  - split; [|split].
    + split; [intros [s H]; discriminate H | intros [H1 H2]; congruence].
    + split; [intros [s H]; discriminate H | intros [H1 H2]; congruence].
    + intros _; split; reflexivity.
  - split; [|split].
    + split; [intros _; split; discriminate|]. intros _.
      destruct (Qcompare _ _); eexists; reflexivity.
    + split; [intros _; split; discriminate|]. intros _.
      destruct (Qcompare _ _); eexists; reflexivity.
    + intros [H|H]; discriminate H.
Qed.

Lemma max_sig_min_sig_empty_witness :
  max_sig [] [1] = Raise (ValueError "max() arg is an empty sequence")
  /\ min_sig [] [1] = Raise (ValueError "max() arg is an empty sequence").
Proof.
  apply (proj2 (proj2 (max_sig_min_sig_empty [] [1]))). left. reflexivity.
Defined.

End SelectionMore.

(** * Further properties: reading signals and selecting events *)

Section AcquisitionFacts.
Local Open Scope Q_scope.

Lemma column_length (rows : list (list Q)) (c : nat) (v1 : list Q) :
  column rows c = Ok v1 -> length v1 = length rows.
Proof.
  revert v1. induction rows as [|row rows IH]; intros v1 H; cbn [column] in H.
  - apply Ok_inj in H. subst v1. reflexivity.
  - apply bind_Ok_inv in H. destruct H as (x & _ & H).
    apply bind_Ok_inv in H. destruct H as (xs & Hxs & H).
    apply Ok_inj in H. subst v1. cbn [length]. rewrite (IH _ Hxs). reflexivity.
Qed.

Lemma column_nth (rows : list (list Q)) (c : nat) (v1 : list Q) :
  column rows c = Ok v1 ->
  forall k, (k < length rows)%nat -> nth k v1 0 = nth c (nth k rows []) 0.
Proof.
  revert v1. induction rows as [|row rows IH]; intros v1 H k Hk;
    [simpl in Hk; lia|].
  cbn [column] in H. apply bind_Ok_inv in H. destruct H as (x & Hx & H).
  apply bind_Ok_inv in H. destruct H as (xs & Hxs & H).
  apply Ok_inj in H. subst v1. destruct k as [|k]; cbn [nth].
  - unfold getitem in Hx. destruct (nth_error row c) as [y|] eqn:E;
      [|discriminate]. apply Ok_inj in Hx. subst y.
    symmetry. apply nth_error_nth. exact E.
  - apply (IH _ Hxs). simpl in Hk. lia.
Qed.

(** Consecutive blocks of [s] samples. *)
Lemma blocks_concat {A : Type} (v : list A) (s : nat) :
  forall m : nat,
    concat (map (fun i => py_slice v i (i + s))
                (map (fun k => (k * s)%nat) (seq 0 m)))
    = firstn (m * s) v.
Proof.
  induction m as [|m IH]; [reflexivity|].
  rewrite seq_S, !map_app, concat_app, IH. cbn [Nat.add map concat].
  rewrite app_nil_r. unfold py_slice.
  replace (firstn (m * s) v) with (firstn (m * s) (firstn (m * s + s) v))
    by (rewrite firstn_firstn; f_equal; lia).
  rewrite firstn_skipn. f_equal. lia.
Qed.

Lemma ceil_div_bounds (n s : nat) :
  (0 < s)%nat ->
  (n <= (n + s - 1) / s * s)%nat
  /\ ((0 < n)%nat -> ((n + s - 1) / s - 1) * s < n)%nat
  /\ (n = 0%nat -> (n + s - 1) / s = 0)%nat.
Proof.
  intros Hs.
  pose proof (Nat.div_mod_eq (n + s - 1) s) as E.
  pose proof (Nat.mod_upper_bound (n + s - 1) s ltac:(lia)) as Hm.
  split; [nia|]. split; [intros Hn; nia|].
  intros ->. apply Nat.div_small. lia.
Qed.

Lemma read_ae_file2_blocks (rows : list (list Q)) (c : nat) (L : Z)
    (sig : list waveform) (ev : list Z) :
  (0 < L)%Z -> read_ae_file2 rows c L = Ok (sig, ev) ->
  exists v1,
    column rows c = Ok v1
    /\ sig = map (fun i => py_slice v1 i (i + Z.to_nat L))
                 (map (fun k => (k * Z.to_nat L)%nat)
                      (seq 0 ((length v1 + Z.to_nat L - 1) / Z.to_nat L)))
    /\ ev = map (fun k => (Z.of_nat k + 1)%Z) (seq 0 (length sig)).
Proof.
  intros HL H. unfold read_ae_file2 in H.
  apply bind_Ok_inv in H. destruct H as (v1 & Hv1 & H).
  unfold py_range_step in H.
  destruct (L =? 0)%Z eqn:E0; [apply Z.eqb_eq in E0; lia|].
  destruct (L <? 0)%Z eqn:E1; [apply Z.ltb_lt in E1; lia|].
  cbn [bind] in H. apply Ok_inj in H. inversion H as [[Hsig Hev]].
  exists v1. repeat split; try reflexivity. exact Hv1.
Qed.

(** X8.  For a positive [sig_length], [read_ae_file2] cuts the column into
    consecutive signals and loses nothing: the signals joined are the column
    (one sample per data line), every signal but the last has [sig_length]
    samples, and the last has between 1 and [sig_length]. *)
Theorem read_ae_file2_partitions_the_column :
  forall (rows : list (list Q)) (channel_num : nat) (sig_length : Z)
         (sig : list waveform) (ev : list Z),
    (0 < sig_length)%Z ->
    read_ae_file2 rows channel_num sig_length = Ok (sig, ev) ->
    column rows channel_num = Ok (concat sig)
    /\ length (concat sig) = length rows
    /\ Forall (fun s => (1 <= length s <= Z.to_nat sig_length)%nat) sig
    /\ (forall k, (S k < length sig)%nat ->
          length (nth k sig []) = Z.to_nat sig_length).
Proof.
  intros rows c L sig ev HL H.
  destruct (read_ae_file2_blocks rows c L sig ev HL H) as (v1 & Hv1 & Hsig & _).
  set (s := Z.to_nat L) in *. set (n := length v1) in *.
  assert (Hs : (0 < s)%nat) by (subst s; lia).
  destruct (ceil_div_bounds n s Hs) as (Hge & Hlt & Hz).
  assert (Hcat : concat sig = v1).
  { rewrite Hsig, blocks_concat. apply firstn_all2. fold n. exact Hge. }
  assert (Hlen : forall k, (k < (n + s - 1) / s)%nat ->
            length (py_slice v1 (k * s) (k * s + s))
            = (Nat.min (k * s + s) n - k * s)%nat).
  { intros k _. unfold py_slice. rewrite length_skipn, length_firstn.
    fold n. reflexivity. }
  split; [rewrite Hcat; exact Hv1|].
  split; [rewrite Hcat; exact (column_length rows c v1 Hv1)|].
  split.
  - rewrite Hsig. apply Forall_forall. intros x Hx.
    apply in_map_iff in Hx. destruct Hx as (i & <- & Hi).
    apply in_map_iff in Hi. destruct Hi as (k & <- & Hk).
    apply in_seq in Hk. rewrite (Hlen k) by lia.
    assert (0 < n)%nat by (destruct n; [rewrite Hz in Hk by reflexivity; lia | lia]).
    specialize (Hlt H0). nia.
  - intros k Hk. rewrite Hsig in Hk |- *.
    rewrite !length_map, length_seq in Hk.
    rewrite map_map.
    rewrite (nth_indep _ [] (py_slice v1 (0 * s) (0 * s + s)))
      by (rewrite length_map, length_seq; lia).
    rewrite (map_nth (fun k0 => py_slice v1 (k0 * s) (k0 * s + s))).
    rewrite seq_nth by lia. cbn [Nat.add]. rewrite (Hlen k) by lia.
    assert (0 < n)%nat by (destruct n; [rewrite Hz in Hk by reflexivity; lia | lia]).
    specialize (Hlt H0). nia.
Qed.

Lemma read_ae_file2_partitions_the_column_witness :
  column [[1; 7]; [2; 7]; [3; 7]; [4; 7]; [5; 7]] 0
  = Ok (concat [[1; 2]; [3; 4]; [5]]).
Proof.
  apply (read_ae_file2_partitions_the_column
           [[1; 7]; [2; 7]; [3; 7]; [4; 7]; [5; 7]] 0 2
           [[1; 2]; [3; 4]; [5]] [1; 2; 3]%Z).
  - lia.
  - vm_compute. reflexivity.
Defined.

(** X9.  For a positive [sig_length] and [n] data lines, [read_ae_file2]
    returns [ceil(n / sig_length)] signals and numbers them 1, 2, ... in
    order. *)
Theorem read_ae_file2_numbers_events_from_one :
  forall (rows : list (list Q)) (channel_num : nat) (sig_length : Z)
         (sig : list waveform) (ev : list Z),
    (0 < sig_length)%Z ->
    read_ae_file2 rows channel_num sig_length = Ok (sig, ev) ->
    length ev = length sig
    /\ Z.of_nat (length sig)
       = ((Z.of_nat (length rows) + sig_length - 1) / sig_length)%Z
    /\ forall k, (k < length ev)%nat -> nth k ev 0%Z = (Z.of_nat k + 1)%Z.
Proof.
  intros rows c L sig ev HL H.
  destruct (read_ae_file2_blocks rows c L sig ev HL H)
    as (v1 & Hv1 & Hsig & Hev).
  pose proof (column_length rows c v1 Hv1) as Hn.
  split; [rewrite Hev, length_map, length_seq; reflexivity|]. split.
  - rewrite Hsig, !length_map, length_seq, Hn.
    rewrite Nat2Z.inj_div, Nat2Z.inj_sub by lia.
    rewrite !Nat2Z.inj_add, Z2Nat.id by lia. reflexivity.
  - intros k Hk. rewrite Hev in Hk |- *. rewrite length_map, length_seq in Hk.
    rewrite (nth_indep _ 0%Z ((fun k0 => (Z.of_nat k0 + 1)%Z) 0%nat))
      by (rewrite length_map, length_seq; lia).
    rewrite (map_nth (fun k0 => (Z.of_nat k0 + 1)%Z)).
    rewrite seq_nth by lia. reflexivity.
Qed.

Lemma read_ae_file2_numbers_events_from_one_witness :
  Z.of_nat (length [[1; 2]; [3; 4]; [5 : Q]]) = ((5 + 2 - 1) / 2)%Z.
Proof.
  apply (proj1 (proj2 (read_ae_file2_numbers_events_from_one
           [[1; 7]; [2; 7]; [3; 7]; [4; 7]; [5; 7]] 0 2
           [[1; 2]; [3; 4]; [5]] [1; 2; 3]%Z ltac:(lia)
           ltac:(vm_compute; reflexivity)))).
Defined.

(** X10.  Edge cases of [read_ae_file2]: a data line with too few fields
    raises [IndexError]; with every line long enough, [sig_length = 0] raises
    [ValueError] ([range] refuses a zero step) and a negative [sig_length]
    returns no signal and no event number, whatever the data. *)
Theorem read_ae_file2_edge_cases :
  forall (rows : list (list Q)) (channel_num : nat) (sig_length : Z),
    (Exists (fun row => (length row <= channel_num)%nat) rows ->
     read_ae_file2 rows channel_num sig_length = Raise IndexError)
    /\ (Forall (fun row => (channel_num < length row)%nat) rows ->
        (sig_length = 0%Z ->
         read_ae_file2 rows channel_num sig_length
         = Raise (ValueError "range() arg 3 must not be zero"))
        /\ ((sig_length < 0)%Z ->
            read_ae_file2 rows channel_num sig_length = Ok ([], []))).
Proof.
  intros rows c L. split.
  - intros Hex. unfold read_ae_file2.
    assert (Hcol : column rows c = Raise IndexError).
    { induction rows as [|row rows IH]; [inversion Hex|].
      cbn [column]. unfold getitem.
      destruct (nth_error row c) as [x|] eqn:E; cbn [bind].
      - inversion Hex as [? ? Hrow | ? ? Hrest]; subst.
        + apply nth_error_None in Hrow. congruence.
        + rewrite (IH Hrest). reflexivity.
      - reflexivity. }
    rewrite Hcol. reflexivity.
  - intros Hall.
    assert (Hcol : exists v1, column rows c = Ok v1).
    { induction Hall as [|row rows Hrow _ [v1 IH]]; [eexists; reflexivity|].
      cbn [column]. destruct (getitem_in_range row c Hrow) as [x Hx].
      rewrite Hx, IH. eexists. reflexivity. }
    destruct Hcol as [v1 Hcol]. unfold read_ae_file2. rewrite Hcol.
    cbn [bind]. unfold py_range_step. split.
    + intros ->. reflexivity.
    + intros HL. destruct (L =? 0)%Z eqn:E0; [apply Z.eqb_eq in E0; lia|].
      apply Z.ltb_lt in HL. rewrite HL. reflexivity.
Qed.

Lemma read_ae_file2_edge_cases_witness :
  read_ae_file2 [[1; 2]; [3]] 1 4 = Raise IndexError
  /\ read_ae_file2 [[1; 2]; [3; 4]] 1 0
     = Raise (ValueError "range() arg 3 must not be zero")
  /\ read_ae_file2 [[1; 2]; [3; 4]] 1 (-2) = Ok ([], []).
Proof.
  split; [|split].
  - apply (proj1 (read_ae_file2_edge_cases [[1; 2]; [3]] 1 4)).
    right. left. simpl. lia.
  - apply (proj2 (read_ae_file2_edge_cases [[1; 2]; [3; 4]] 1 0));
      [repeat constructor; simpl; lia | reflexivity].
  - apply (proj2 (read_ae_file2_edge_cases [[1; 2]; [3; 4]] 1 (-2)));
      [repeat constructor; simpl; lia | lia].
Defined.

End AcquisitionFacts.

Section FilterAeFacts.
Local Open Scope Q_scope.

Lemma np_take_wrap_front {A : Type} (a : list A) (d : A) (idx : list Z) :
  Forall (fun k => (0 <= k < Z.of_nat (length a))%Z) idx ->
  np_take_wrap a idx = Ok (map (fun k => nth (Z.to_nat k) a d) idx).
Proof.
  induction 1 as [|k idx Hk _ IH]; [reflexivity|].
  cbn [np_take_wrap map]. destruct (k <? 0)%Z eqn:E;
    [apply Z.ltb_lt in E; lia|].
  destruct (getitem_in_range a (Z.to_nat k)) as [x Hx]; [lia|].
  rewrite Hx, IH. cbn [bind]. unfold getitem in Hx.
  destruct (nth_error a (Z.to_nat k)) as [y|] eqn:En; [|discriminate].
  apply Ok_inj in Hx. subst y. rewrite (nth_error_nth a _ d En). reflexivity.
Qed.

Lemma np_take_wrap_back {A : Type} (a : list A) (d : A) (idx : list Z) :
  Forall (fun k => (- Z.of_nat (length a) <= k < 0)%Z) idx ->
  np_take_wrap a idx
  = Ok (map (fun k => nth (Z.to_nat (k + Z.of_nat (length a))) a d) idx).
Proof.
  induction 1 as [|k idx Hk _ IH]; [reflexivity|].
  cbn [np_take_wrap map]. destruct (k <? 0)%Z eqn:E;
    [|apply Z.ltb_ge in E; lia].
  destruct (k + Z.of_nat (length a) <? 0)%Z eqn:E2;
    [apply Z.ltb_lt in E2; lia|].
  destruct (getitem_in_range a (Z.to_nat (k + Z.of_nat (length a))))
    as [x Hx]; [lia|].
  rewrite Hx, IH. cbn [bind]. unfold getitem in Hx.
  destruct (nth_error a _) as [y|] eqn:En; [|discriminate].
  apply Ok_inj in Hx. subst y. rewrite (nth_error_nth a _ d En). reflexivity.
Qed.

Lemma np_take_wrap_outside {A : Type} (a : list A) (idx : list Z) :
  Exists (fun k => (k < - Z.of_nat (length a) \/ Z.of_nat (length a) <= k)%Z)
         idx ->
  np_take_wrap a idx = Raise IndexError.
Proof.
  induction idx as [|k idx IH]; intros Hex; [inversion Hex|].
  cbn [np_take_wrap].
  destruct (k <? 0)%Z eqn:E.
  - apply Z.ltb_lt in E.
    destruct (k + Z.of_nat (length a) <? 0)%Z eqn:E2; [reflexivity|].
    apply Z.ltb_ge in E2.
    destruct (getitem_in_range a (Z.to_nat (k + Z.of_nat (length a))))
      as [x Hx]; [lia|].
    rewrite Hx. cbn [bind].
    inversion Hex as [? ? Hk | ? ? Hrest]; subst; [lia|].
    rewrite (IH Hrest). reflexivity.
  - apply Z.ltb_ge in E. unfold getitem.
    destruct (nth_error a (Z.to_nat k)) as [x|] eqn:En; [|reflexivity].
    cbn [bind].
    inversion Hex as [? ? Hk | ? ? Hrest]; subst.
    + assert (Z.to_nat k < length a)%nat
        by (apply (proj1 (nth_error_Some a (Z.to_nat k))); congruence).
      lia.
    + rewrite (IH Hrest). reflexivity.
Qed.

Lemma filter_ae_nonempty (rows : list (list Q)) (ev : list Z)
    (channel_num : nat) (sig_length : Z) :
  ev <> [] ->
  filter_ae rows ev channel_num sig_length
  = (r <- read_ae_file2 rows channel_num sig_length ;;
     v1 <- np_take_wrap (fst r) (map (fun e => (e - 1)%Z) ev) ;;
     Ok (v1, ev)).
Proof. intros Hne. destruct ev; [congruence | reflexivity]. Qed.

(** X11.  [filter_ae] counts events from 1: for a positive [sig_length], data
    that fill whole signals and a non-empty list of event numbers between 1
    and the number of signals, it returns, for each event number [e] in turn, samples
    [(e-1)*sig_length] up to [e*sig_length] (exclusive) of the column,
    together with the event numbers as given. *)
Theorem filter_ae_selects_events :
  forall (rows : list (list Q)) (ev : list Z) (channel_num : nat)
         (sig_length : Z) (v1 : list Q),
    (0 < sig_length)%Z -> ev <> [] ->
    column rows channel_num = Ok v1 ->
    (Z.of_nat (length v1) mod sig_length = 0)%Z ->
    Forall (fun e => (1 <= e /\ (e - 1) * sig_length < Z.of_nat (length v1))%Z)
           ev ->
    filter_ae rows ev channel_num sig_length
    = Ok (map (fun e => py_slice v1 (Z.to_nat ((e - 1) * sig_length))
                                    (Z.to_nat (e * sig_length)))
              ev,
          ev).
Proof.
  intros rows ev c L v1 HL Hne Hv1 _ Hev.
  rewrite (filter_ae_nonempty _ _ _ _ Hne).
  unfold read_ae_file2. rewrite Hv1. cbn [bind].
  unfold py_range_step.
  destruct (L =? 0)%Z eqn:E0; [apply Z.eqb_eq in E0; lia|].
  destruct (L <? 0)%Z eqn:E1; [apply Z.ltb_lt in E1; lia|].
  cbn [bind fst].
  set (s := Z.to_nat L). set (n := length v1) in *.
  assert (Hs : (0 < s)%nat) by (subst s; lia).
  destruct (ceil_div_bounds n s Hs) as (Hge & _ & _).
  set (m := ((n + s - 1) / s)%nat) in *.
  assert (Hin : Forall (fun e => (1 <= e)%Z /\ (Z.to_nat (e - 1) < m)%nat) ev).
  { eapply Forall_impl; [|exact Hev]. cbv beta. intros e [H1 H2].
    split; [exact H1|].
    assert (Z.to_nat (e - 1) * s < n)%nat by (subst s; nia). nia. }
  rewrite (@np_take_wrap_front (list Q) _ [] (map (fun e => (e - 1)%Z) ev)).
  - cbn [bind]. f_equal. f_equal. rewrite map_map.
    apply map_ext_in. intros e He. rewrite Forall_forall in Hin.
    destruct (Hin e He) as [H1 H2]. rewrite map_map.
    rewrite (nth_indep _ [] ((fun k => py_slice v1 (k * s) (k * s + s)) 0%nat))
      by (rewrite length_map, length_seq; exact H2).
    rewrite (map_nth (fun k => py_slice v1 (k * s) (k * s + s))).
    rewrite seq_nth by exact H2. cbn [Nat.add]. f_equal; subst s; nia.
  - apply Forall_forall. intros k Hk. apply in_map_iff in Hk.
    destruct Hk as (e & <- & He). rewrite Forall_forall in Hin.
    destruct (Hin e He) as [H1 H2]. rewrite !length_map, length_seq.
    fold s m. lia.
Qed.

Lemma filter_ae_selects_events_witness :
  filter_ae [[1; 7]; [2; 7]; [3; 7]; [4; 7]; [5; 7]; [6; 7]] [3; 1]%Z 0 2
  = Ok ([py_slice [1; 2; 3; 4; 5; 6] 4 6; py_slice [1; 2; 3; 4; 5; 6] 0 2],
        [3; 1]%Z).
Proof.
  apply (filter_ae_selects_events
           [[1; 7]; [2; 7]; [3; 7]; [4; 7]; [5; 7]; [6; 7]] [3; 1]%Z 0 2
           [1; 2; 3; 4; 5; 6]).
  - lia.
  - discriminate.
  - vm_compute. reflexivity.
  - reflexivity.
  - repeat constructor; simpl; lia.
Defined.

(** X12.  Event numbers outside 1..count are not refused as such: with
    [count] signals of [sig_length] samples read, an event number [e] with [1 - count <= e <= 0]
    selects signal [count + e] (event 0 is the last signal), and only an
    event number above [count] or below [1 - count] raises [IndexError]. *)
Theorem filter_ae_event_numbers_wrap :
  forall (rows : list (list Q)) (ev : list Z) (channel_num : nat)
         (sig_length : Z) (sig : list waveform) (evs : list Z),
    read_ae_file2 rows channel_num sig_length = Ok (sig, evs) ->
    Forall (fun s => length s = Z.to_nat sig_length) sig ->
    ev <> [] ->
    (Forall (fun e => (1 - Z.of_nat (length sig) <= e <= 0)%Z) ev ->
     filter_ae rows ev channel_num sig_length
     = Ok (map (fun e => nth (Z.to_nat (Z.of_nat (length sig) + e - 1)) sig [])
               ev,
           ev))
    /\ (Exists (fun e => (e < 1 - Z.of_nat (length sig)
                          \/ Z.of_nat (length sig) < e)%Z) ev ->
        filter_ae rows ev channel_num sig_length = Raise IndexError).
Proof.
  intros rows ev c L sig evs Hread _ Hne.
  rewrite (filter_ae_nonempty _ _ _ _ Hne). rewrite Hread.
  cbn [bind fst]. split.
  - intros Hev.
    rewrite (np_take_wrap_back sig [] (map (fun e => (e - 1)%Z) ev)).
    + cbn [bind]. f_equal. f_equal. rewrite map_map. apply map_ext.
      intros e. f_equal. f_equal. lia.
    + apply Forall_forall. intros k Hk. apply in_map_iff in Hk.
      destruct Hk as (e & <- & He). rewrite Forall_forall in Hev.
      specialize (Hev e He). lia.
  - intros Hex. rewrite np_take_wrap_outside; [reflexivity|].
    apply Exists_exists in Hex. destruct Hex as (e & He & Hout).
    apply Exists_exists. exists (e - 1)%Z. split; [|lia].
    apply in_map_iff. exists e. split; [reflexivity | exact He].
Qed.

Lemma filter_ae_event_numbers_wrap_witness :
  filter_ae [[1]; [2]; [3]; [4]] [0]%Z 0 2 = Ok ([[3; 4]], [0]%Z)
  /\ filter_ae [[1]; [2]; [3]; [4]] [1; 3]%Z 0 2 = Raise IndexError.
Proof.
  split.
  - apply (proj1 (filter_ae_event_numbers_wrap [[1]; [2]; [3]; [4]] [0]%Z 0 2
                    [[1; 2]; [3; 4]] [1; 2]%Z
                    ltac:(vm_compute; reflexivity)
                    ltac:(repeat constructor) ltac:(discriminate))).
    repeat constructor; simpl; lia.
  - apply (proj2 (filter_ae_event_numbers_wrap [[1]; [2]; [3]; [4]] [1; 3]%Z
                    0 2 [[1; 2]; [3; 4]] [1; 2]%Z
                    ltac:(vm_compute; reflexivity)
                    ltac:(repeat constructor) ltac:(discriminate))).
    right. left. simpl. lia.
Defined.

End FilterAeFacts.

(** * Further properties: the spectrum *)

Section FftMore.
Local Open Scope R_scope.

Lemma np_fftfreq_nonzero (dt : R) (y : signal) :
  dt <> 0 -> y <> [] ->
  np_fftfreq (length y) dt = Ok (map fst (full_spectrum dt y)).
Proof.
  intros Hdt Hy. unfold np_fftfreq.
  assert (Hn : (1 <= length y)%nat) by (destruct y; [congruence | simpl; lia]).
  destruct (Req_dec_T (INR (length y) * dt) 0) as [E|_].
  - exfalso. pose proof (lt_0_INR (length y) ltac:(lia)).
    apply Rmult_integral in E. destruct E; [lra | contradiction].
  - unfold full_spectrum. rewrite map_map. reflexivity.
Qed.

Lemma map_fst_combine_le {A B : Type} (l : list A) :
  forall l' : list B, (length l <= length l')%nat ->
    map fst (combine l l') = l.
Proof.
  induction l as [|a l IH]; intros [|b l'] H; simpl in *; try reflexivity;
    try lia.
  rewrite IH by lia. reflexivity.
Qed.

Lemma map_snd_combine_le {A B : Type} (l : list A) :
  forall l' : list B, map snd (combine l l') = firstn (length l) l'.
Proof.
  induction l as [|a l IH]; intros [|b l']; simpl; try reflexivity.
  rewrite IH. reflexivity.
Qed.

(** What [fft] computes for any non-zero sample spacing: the second mask of
    line 199 is all true, so the magnitudes are cut to the number of
    frequencies kept and paired with them by position. *)
Lemma fft_by_position (dt : R) (y : signal) (low_pass high_pass : option R) :
  dt <> 0 -> y <> [] ->
  fft dt y low_pass high_pass
  = Ok (map fst
          (filter (fun p =>
                     match low_pass with Some lo => Rltb lo (fst p) | None => true end
                     && match high_pass with Some hi => Rltb (fst p) hi | None => true end)
                  (combine (filter (fun f => Rleb 0 f) (map fst (full_spectrum dt y)))
                           (map snd (full_spectrum dt y)))),
        map snd
          (filter (fun p =>
                     match low_pass with Some lo => Rltb lo (fst p) | None => true end
                     && match high_pass with Some hi => Rltb (fst p) hi | None => true end)
                  (combine (filter (fun f => Rleb 0 f) (map fst (full_spectrum dt y)))
                           (map snd (full_spectrum dt y))))).
Proof.
  intros Hdt Hy. unfold fft.
  rewrite (np_abs_fft_full dt y Hy). cbn [bind].
  rewrite length_map, full_spectrum_length, (np_fftfreq_nonzero dt y Hdt Hy).
  cbn [bind]. rewrite (take_where fst). cbn [bind]. rewrite filter_map_fst.
  set (FS := full_spectrum dt y).
  set (w1 := filter (fun f => Rleb 0 f) (map fst FS)).
  assert (Hall : Forall (fun f => Rleb 0 f = true) w1).
  { apply Forall_forall. intros f Hf. apply filter_In in Hf. exact (proj2 Hf). }
  unfold np_where at 1.
  rewrite (@np_where_all (fun f => Rleb 0 f) w1 0%nat Hall).
  assert (Hlen : (length w1 <= length (map snd FS))%nat).
  { subst w1. rewrite length_map, <- (length_map fst FS).
    apply filter_length_le. }
  pose proof (take_seq_from (length w1) (map snd FS) [] Hlen) as Htake.
  cbn [app length] in Htake. rewrite Htake. cbn [bind].
  set (P1 := combine w1 (map snd FS)).
  assert (Hpair : (w1, firstn (length w1) (map snd FS))
                  = (map fst P1, map snd P1)).
  { subst P1. rewrite map_snd_combine_le, (map_fst_combine_le w1 _ Hlen).
    reflexivity. }
  rewrite Hpair.
  assert (Hsame : forall q : R * R -> bool,
            (forall p, q p = true) -> filter q P1 = P1).
  { intros q Hq. apply filter_all. apply Forall_forall. intros p _. apply Hq. }
  destruct low_pass as [lo|], high_pass as [hi|].
  - rewrite band_limit_pairs. cbn [bind]. rewrite band_limit_pairs.
    rewrite filter_twice. reflexivity.
  - rewrite band_limit_pairs. cbn [bind].
    rewrite (filter_ext (fun p : R * R => Rltb lo (fst p) && true)
                        (fun p : R * R => Rltb lo (fst p)))
      by (intros p; apply andb_true_r).
    reflexivity.
  - cbn [bind]. rewrite band_limit_pairs. reflexivity.
  - cbn [bind]. rewrite Hsame by reflexivity. reflexivity.
Qed.

End FftMore.

Section FftClaimsMore.
Local Open Scope R_scope.

Lemma half_count_alt (n : nat) : (1 <= n)%nat -> ((n - 1) / 2 + 1 = (n + 1) / 2)%nat.
Proof.
  intros Hn. replace (n + 1)%nat with (n - 1 + 1 * 2)%nat by lia.
  rewrite Nat.div_add by lia. reflexivity.
Qed.

(** X13.  Without band limits and with a positive sample spacing, [fft] of
    [n >= 1] samples returns the [ceil(n/2)] bins [0, 1, ...] of the
    transform: frequency [i / (n * dt)] with the magnitude of coefficient
    [i].  Every frequency is below [1 / (2 * dt)]: for an even [n] the
    Nyquist bin is not returned. *)
Theorem fft_unlimited_bins :
  forall (dt : R) (y : signal),
    0 < dt -> y <> [] ->
    fft dt y None None
    = Ok (map (fun i => INR i / (INR (length y) * dt))
              (seq 0 ((length y + 1) / 2)),
          map (bin_magnitude y) (seq 0 ((length y + 1) / 2)))
    /\ Forall (fun f => 0 <= f < 1 / (2 * dt))
              (map (fun i => INR i / (INR (length y) * dt))
                   (seq 0 ((length y + 1) / 2))).
Proof.
  intros dt y Hdt Hy.
  assert (Hn : (1 <= length y)%nat) by (destruct y; [congruence | simpl; lia]).
  split.
  - rewrite (fft_pairs dt y None None Hdt Hy).
    rewrite (filter_ext (fun p : R * R => fft_keeps None None (fst p))
                        (fun p : R * R => Rleb 0 (fst p)))
      by (intros p; unfold fft_keeps; rewrite !andb_true_r; reflexivity).
    rewrite (full_spectrum_nonneg dt y Hdt Hy), !map_map. cbn [fst snd].
    rewrite (half_count_alt _ Hn). f_equal. f_equal.
    apply map_ext_in. intros i Hi. apply in_seq in Hi.
    rewrite bin_frequency_low by (rewrite (half_count_alt _ Hn); lia).
    unfold Rdiv. ring.
  - apply Forall_forall. intros f Hf. apply in_map_iff in Hf.
    destruct Hf as (i & <- & Hi). apply in_seq in Hi.
    assert (H2 : (2 * i < length y)%nat).
    { pose proof (Nat.Div0.mul_div_le (length y + 1) 2). lia. }
    assert (Hpos : 0 < INR (length y)) by (apply lt_0_INR; lia).
    assert (Hi2 : 2 * INR i < INR (length y)).
    { apply lt_INR in H2. rewrite mult_INR in H2. simpl in H2. lra. }
    pose proof (pos_INR i) as Hi0.
    assert (Hden : 0 < INR (length y) * dt) by nra.
    split.
    + apply Rmult_le_pos; [exact Hi0|]. apply Rlt_le. apply Rinv_0_lt_compat.
      exact Hden.
    + apply (Rmult_lt_reg_r (INR (length y) * dt)); [exact Hden|].
      unfold Rdiv. rewrite Rmult_assoc, Rinv_l by lra.
      replace (1 * / (2 * dt) * (INR (length y) * dt))
        with (INR (length y) / 2) by (field; lra).
      lra.
Qed.

Lemma fft_unlimited_bins_witness :
  fft 1 [1; 0; 0; 0] None None
  = Ok (map (fun i => INR i / (INR 4 * 1)) (seq 0 2),
        map (bin_magnitude [1; 0; 0; 0]) (seq 0 2)).
Proof.
  apply (proj1 (fft_unlimited_bins 1 [1; 0; 0; 0] ltac:(lra)
                  ltac:(discriminate))).
Defined.

(** X14.  [fft] returns exactly for a non-empty waveform and a non-zero
    sample spacing, whatever the band limits: the empty waveform raises
    [ValueError] (NumPy's transform), a zero spacing raises
    [ZeroDivisionError] ([fftfreq]).  When it returns, frequencies and
    magnitudes have one length, at most the number of samples, and every
    frequency is non-negative and strictly inside the limits given. *)
Theorem fft_returns_iff :
  forall (dt : R) (y : signal) (low_pass high_pass : option R),
    (y = [] ->
     fft dt y low_pass high_pass
     = Raise (ValueError "Invalid number of FFT data points (0) specified."))
    /\ (y <> [] -> dt = 0 ->
        fft dt y low_pass high_pass = Raise ZeroDivisionError)
    /\ (y <> [] -> dt <> 0 ->
        exists w z,
          fft dt y low_pass high_pass = Ok (w, z)
          /\ length w = length z
          /\ (length w <= length y)%nat
          /\ Forall (fun f => 0 <= f
                              /\ (forall lo, low_pass = Some lo -> lo < f)
                              /\ (forall hi, high_pass = Some hi -> f < hi))
                    w).
Proof.
  intros dt y lp hp. split; [|split].
  - intros ->. reflexivity.
  - intros Hy ->. unfold fft. rewrite (np_abs_fft_full 0 y Hy). cbn [bind].
    unfold np_fftfreq. rewrite Rmult_0_r.
    destruct (Req_dec_T 0 0) as [_|H]; [reflexivity | congruence].
  - intros Hy Hdt. eexists. eexists.
    split; [apply (fft_by_position dt y lp hp Hdt Hy)|].
    split; [rewrite !length_map; reflexivity|]. split.
    + rewrite length_map.
      eapply Nat.le_trans; [apply filter_length_le|].
      rewrite length_combine, length_map, full_spectrum_length. lia.
    + apply Forall_forall. intros f Hf. apply in_map_iff in Hf.
      destruct Hf as ([f' m] & <- & Hp). apply filter_In in Hp.
      destruct Hp as [Hin Hband]. cbn [fst] in *.
      apply in_combine_l in Hin. apply filter_In in Hin.
      destruct Hin as [_ Hnn]. apply Rleb_true in Hnn.
      apply andb_true_iff in Hband. destruct Hband as [Hlo Hhi].
      split; [exact Hnn|]. split.
      * intros lo ->. apply Rltb_true. exact Hlo.
      * intros hi ->. apply Rltb_true. exact Hhi.
Qed.

Lemma fft_returns_iff_witness :
  fft 0 [1; 0; 0] (Some 0) (Some 1) = Raise ZeroDivisionError
  /\ exists w z, fft 1 [1; 0; 0] (Some 0) (Some 1) = Ok (w, z)
                 /\ length w = length z /\ w = [1 / 3].
Proof.
  split.
  - apply (proj1 (proj2 (fft_returns_iff 0 [1; 0; 0] (Some 0) (Some 1))));
      [discriminate | reflexivity].
  - destruct (proj2 (proj2 (fft_returns_iff 1 [1; 0; 0] (Some 0) (Some 1)))
                ltac:(discriminate) ltac:(lra)) as (w & z & H & Hl & _).
    exists w, z. split; [exact H|]. split; [exact Hl|].
    rewrite (fft_three 0 1) in H by lra.
    apply Ok_inj in H. inversion H. reflexivity.
Defined.

End FftClaimsMore.

Section FftPositionMore.
Local Open Scope R_scope.

Lemma firstn_seq_le (k : nat) :
  forall (a n : nat), (k <= n)%nat -> firstn k (seq a n) = seq a k.
Proof.
  induction k as [|k IH]; intros a n Hk; [reflexivity|].
  destruct n as [|n]; [lia|]. cbn [seq firstn]. rewrite IH by lia.
  reflexivity.
Qed.

Lemma fft_unlimited_by_position (dt : R) (y : signal) :
  dt <> 0 -> y <> [] ->
  fft dt y None None
  = Ok (filter (fun f => Rleb 0 f)
               (map (bin_frequency (length y) dt) (seq 0 (length y))),
        map (bin_magnitude y)
            (seq 0 (length (filter (fun f => Rleb 0 f)
                              (map (bin_frequency (length y) dt)
                                   (seq 0 (length y))))))).
Proof.
  intros Hdt Hy. rewrite (fft_by_position dt y None None Hdt Hy).
  assert (Hfst : map fst (full_spectrum dt y)
                 = map (bin_frequency (length y) dt) (seq 0 (length y)))
    by (unfold full_spectrum; rewrite map_map; reflexivity).
  assert (Hsnd : map snd (full_spectrum dt y)
                 = map (bin_magnitude y) (seq 0 (length y)))
    by (unfold full_spectrum; rewrite map_map; reflexivity).
  rewrite Hfst, Hsnd.
  set (w := filter (fun f => Rleb 0 f)
              (map (bin_frequency (length y) dt) (seq 0 (length y)))).
  assert (Hlen : (length w <= length y)%nat).
  { subst w. eapply Nat.le_trans; [apply filter_length_le|].
    rewrite length_map, length_seq. lia. }
  rewrite filter_all by (apply Forall_forall; intros p _; reflexivity).
  rewrite map_snd_combine_le, map_fst_combine_le
    by (rewrite length_map, length_seq; exact Hlen).
  rewrite firstn_map, firstn_seq_le by exact Hlen. reflexivity.
Qed.

Lemma negative_spacing_frequencies (dt : R) (n : nat) :
  dt < 0 -> (2 <= n)%nat ->
  filter (fun f => Rleb 0 f) (map (bin_frequency n dt) (seq 0 n))
  = bin_frequency n dt 0
    :: map (bin_frequency n dt) (seq ((n + 1) / 2) (n - (n + 1) / 2)).
Proof.
  intros Hdt Hn.
  assert (HN : ((n - 1) / 2 + 1 = (n + 1) / 2)%nat)
    by (apply half_count_alt; lia).
  set (N := ((n + 1) / 2)%nat) in *.
  assert (HN1 : (1 <= N)%nat) by lia.
  assert (HNn : (N <= n)%nat) by (rewrite <- HN; apply half_count_le; lia).
  assert (Hval : 1 / (INR n * dt) < 0).
  { unfold Rdiv. rewrite Rmult_1_l. apply Rinv_lt_0_compat.
    pose proof (lt_0_INR n ltac:(lia)). nra. }
  assert (Hseq : seq 0 n = 0%nat :: seq 1 (N - 1) ++ seq N (n - N)).
  { replace n with (1 + ((N - 1) + (n - N)))%nat at 1 by lia.
    rewrite seq_app. cbn [seq app Nat.add]. rewrite seq_app.
    replace (1 + (N - 1))%nat with N by lia. reflexivity. }
  rewrite Hseq. cbn [map filter]. rewrite map_app, filter_app.
  assert (H0 : Rleb 0 (bin_frequency n dt 0) = true).
  { apply Rleb_true. unfold bin_frequency.
    replace (0 <? (n - 1) / 2 + 1)%nat with true
      by (symmetry; apply Nat.ltb_lt; lia).
    cbn [Z.of_nat]. lra. }
  rewrite H0. f_equal.
  rewrite filter_none, filter_all; [reflexivity | |].
  - apply Forall_forall. intros f Hf. apply in_map_iff in Hf.
    destruct Hf as (i & <- & Hi). apply in_seq in Hi. apply Rleb_true.
    unfold bin_frequency.
    replace (i <? (n - 1) / 2 + 1)%nat with false
      by (symmetry; apply Nat.ltb_ge; lia).
    assert (IZR (Z.of_nat i - Z.of_nat n) < 0) by (apply IZR_lt; lia).
    nra.
  - apply Forall_forall. intros f Hf. apply in_map_iff in Hf.
    destruct Hf as (i & <- & Hi). apply in_seq in Hi. apply Rleb_false.
    unfold bin_frequency.
    replace (i <? (n - 1) / 2 + 1)%nat with true
      by (symmetry; apply Nat.ltb_lt; lia).
    assert (0 < IZR (Z.of_nat i)) by (apply IZR_lt; lia).
    nra.
Qed.

(** X15.  For every non-zero sample spacing, magnitude [k] of the unlimited
    output is the magnitude of coefficient [k]: line 199 masks the magnitudes
    with the frequencies already kept, so it keeps a leading block.  With a
    negative spacing and at least three samples the frequencies kept are not
    a leading block, and frequency and magnitude at position 1 belong to
    different coefficients. *)
Theorem fft_magnitudes_by_position :
  forall (dt : R) (y : signal),
    dt <> 0 -> y <> [] ->
    exists w z,
      fft dt y None None = Ok (w, z)
      /\ w = filter (fun f => Rleb 0 f)
                    (map (bin_frequency (length y) dt) (seq 0 (length y)))
      /\ z = map (bin_magnitude y) (seq 0 (length w))
      /\ (dt < 0 -> (3 <= length y)%nat ->
          nth 1 w 0 = bin_frequency (length y) dt ((length y + 1) / 2)
          /\ nth 1 z 0 = bin_magnitude y 1
          /\ (2 <= (length y + 1) / 2)%nat).
Proof.
  intros dt y Hdt Hy. eexists. eexists.
  split; [apply (fft_unlimited_by_position dt y Hdt Hy)|].
  split; [reflexivity|]. split; [reflexivity|].
  intros Hneg Hn.
  rewrite (negative_spacing_frequencies dt (length y) Hneg) by lia.
  assert (H2 : (2 <= (length y + 1) / 2)%nat).
  { replace (length y + 1)%nat with ((length y - 3) + 2 * 2)%nat by lia.
    rewrite Nat.div_add by lia. lia. }
  assert (Hle : ((length y + 1) / 2 < length y)%nat).
  { pose proof (Nat.Div0.div_lt_upper_bound (length y + 1) 2 (length y)).
    lia. }
  destruct (length y - (length y + 1) / 2)%nat as [|r] eqn:Er; [lia|].
  cbn [seq map nth length].
  split; [reflexivity | split; [reflexivity | exact H2]].
Qed.

Lemma fft_magnitudes_by_position_witness :
  exists w z,
    fft (-1) [1; 2; 3] None None = Ok (w, z)
    /\ nth 1 w 0 = bin_frequency 3 (-1) 2
    /\ nth 1 z 0 = bin_magnitude [1; 2; 3] 1.
Proof.
  destruct (fft_magnitudes_by_position (-1) [1; 2; 3] ltac:(lra)
              ltac:(discriminate)) as (w & z & H & _ & _ & Hneg).
  destruct (Hneg ltac:(lra) ltac:(simpl; lia)) as (Hw & Hz & _).
  exists w, z. repeat split; assumption.
Defined.

End FftPositionMore.

(** * Further properties: scaling by any factor *)

Section ScalingMore.
Local Open Scope R_scope.








End ScalingMore.

(** * Further properties: the spectral centroid *)

Section CentroidFacts.
Local Open Scope R_scope.

Lemma np_mul_same_length (a b : list R) :
  length a = length b ->
  np_mul a b = Ok (map (fun p => fst p * snd p) (combine a b)).
Proof.
  intros H. unfold np_mul. rewrite H, Nat.eqb_refl. reflexivity.
Qed.

Lemma Rsum_nonneg (z : list R) : Forall (fun m => 0 <= m) z -> 0 <= Rsum z.
Proof.
  induction 1 as [|m z Hm _ IH]; simpl; lra.
Qed.

Lemma weighted_sum_bounds (a b : R) :
  forall z w : list R,
    length w = length z ->
    Forall (fun m => 0 <= m) z -> Forall (fun f => a <= f <= b) w ->
    a * Rsum z <= Rsum (map (fun p => fst p * snd p) (combine z w))
               <= b * Rsum z.
Proof.
  induction z as [|m z IH]; intros [|f w] Hlen Hz Hw; simpl in Hlen;
    try discriminate.
  - simpl. lra.
  - inversion Hz as [|? ? Hm Hz']; inversion Hw as [|? ? Hf Hw']; subst.
    cbn [combine map Rsum fold_right fst snd].
    fold (Rsum z). fold (Rsum (map (fun p => fst p * snd p) (combine z w))).
    specialize (IH w ltac:(lia) Hz' Hw'). nra.
Qed.

Lemma Rsum_all_zero (z : list R) : Forall (fun m => m = 0) z -> Rsum z = 0.
Proof.
  induction 1 as [|m z Hm _ IH]; simpl; [reflexivity|]. rewrite Hm, IH. ring.
Qed.

Lemma weighted_sum_all_zero :
  forall z w : list R,
    Forall (fun m => m = 0) z ->
    Rsum (map (fun p => fst p * snd p) (combine z w)) = 0.
Proof.
  induction z as [|m z IH]; intros [|f w] Hz; try reflexivity.
  inversion Hz as [|? ? Hm Hz']; subst.
  cbn [combine map Rsum fold_right fst snd].
  fold (Rsum (map (fun p => fst p * snd p) (combine z w))).
  rewrite (IH w Hz'). ring.
Qed.

Lemma centroid_bounds (w z : list R) (a b : R) :
  length w = length z ->
  Forall (fun m => 0 <= m) z -> Rsum z <> 0 ->
  Forall (fun f => a <= f <= b) w ->
  exists v, get_freq_centroid w z = Ok (Fin v) /\ a <= v <= b.
Proof.
  intros Hlen Hz Hsum Hw.
  unfold get_freq_centroid. rewrite np_mul_same_length by (symmetry; exact Hlen).
  cbn [bind]. unfold np_div.
  destruct (Req_dec_T (Rsum z) 0) as [E|_]; [contradiction|].
  eexists. split; [reflexivity|].
  pose proof (Rsum_nonneg z Hz) as H0.
  assert (Hpos : 0 < Rsum z) by lra.
  destruct (weighted_sum_bounds a b z w Hlen Hz Hw) as [Hlo Hhi].
  split.
  - apply (Rmult_le_reg_r (Rsum z)); [exact Hpos|].
    unfold Rdiv. rewrite Rmult_assoc, Rinv_l, Rmult_1_r by lra. exact Hlo.
  - apply (Rmult_le_reg_r (Rsum z)); [exact Hpos|].
    unfold Rdiv. rewrite Rmult_assoc, Rinv_l, Rmult_1_r by lra. exact Hhi.
Qed.



(** X19.  Edge cases of [get_freq_centroid]: a spectrum whose magnitudes are
    all zero (the empty spectrum among them) gives NaN and no exception;
    arrays of different lengths, neither of length 1, raise [ValueError]. *)
Theorem get_freq_centroid_edge_cases :
  forall w z : list R,
    (length w = length z -> Forall (fun m => m = 0) z ->
     get_freq_centroid w z = Ok NaN)
    /\ (length w <> length z -> length w <> 1%nat -> length z <> 1%nat ->
        get_freq_centroid w z
        = Raise (ValueError "operands could not be broadcast together")).
Proof.
  intros w z. split.
  - intros Hlen Hz. unfold get_freq_centroid.
    rewrite np_mul_same_length by (symmetry; exact Hlen). cbn [bind].
    rewrite (weighted_sum_all_zero z w Hz), (Rsum_all_zero z Hz).
    unfold np_div. destruct (Req_dec_T 0 0) as [_|H]; [reflexivity|congruence].
  - intros Hne Hw Hz. unfold get_freq_centroid, np_mul.
    destruct (length z =? length w)%nat eqn:E;
      [apply Nat.eqb_eq in E; congruence|].
    destruct z as [|m [|m' z]], w as [|f [|f' w]]; simpl in *;
      try congruence; reflexivity.
Qed.

Lemma get_freq_centroid_edge_cases_witness :
  get_freq_centroid [1; 2] [0; 0] = Ok NaN
  /\ get_freq_centroid [1; 2; 3] [1; 1]
     = Raise (ValueError "operands could not be broadcast together").
Proof.
  split.
  - apply (proj1 (get_freq_centroid_edge_cases [1; 2] [0; 0]));
      [reflexivity | repeat constructor].
  - apply (proj2 (get_freq_centroid_edge_cases [1; 2; 3] [1; 1]));
      simpl; lia.
Defined.


Lemma bin_magnitude_nonneg (y : signal) (k : nat) : 0 <= bin_magnitude y k.
Proof. unfold bin_magnitude. apply sqrt_pos. Qed.

Lemma fft_output_facts (dt : R) (y : signal) (low_pass high_pass : option R)
    (w z : list R) :
  fft dt y low_pass high_pass = Ok (w, z) ->
  length w = length z
  /\ Forall (fun m => 0 <= m) z
  /\ Forall (fun f => 0 <= f
                      /\ (forall lo, low_pass = Some lo -> lo < f)
                      /\ (forall hi, high_pass = Some hi -> f < hi)) w.
Proof.
  intros H.
  assert (Hy : y <> []) by (intros ->; discriminate H).
  assert (Hdt : dt <> 0).
  { intros ->. unfold fft in H. rewrite (np_abs_fft_full 0 y Hy) in H.
    cbn [bind] in H. unfold np_fftfreq in H. rewrite Rmult_0_r in H.
    destruct (Req_dec_T 0 0) as [_|E]; [discriminate H | congruence]. }
  rewrite (fft_by_position dt y low_pass high_pass Hdt Hy) in H.
  apply Ok_inj in H. inversion H as [[Hw Hz]]. clear H.
  split; [rewrite !length_map; reflexivity|]. split.
  - apply Forall_forall. intros m Hm. apply in_map_iff in Hm.
    destruct Hm as ([f m'] & <- & Hp). apply filter_In in Hp.
    destruct Hp as [Hin _]. apply in_combine_r in Hin.
    unfold full_spectrum in Hin. rewrite map_map in Hin.
    apply in_map_iff in Hin. destruct Hin as (i & <- & _).
    apply bin_magnitude_nonneg.
  - apply Forall_forall. intros f Hf. apply in_map_iff in Hf.
    destruct Hf as ([f' m] & <- & Hp). apply filter_In in Hp.
    destruct Hp as [Hin Hband]. cbn [fst] in *.
    apply in_combine_l in Hin. apply filter_In in Hin.
    destruct Hin as [_ Hnn]. apply Rleb_true in Hnn.
    apply andb_true_iff in Hband. destruct Hband as [Hlo Hhi].
    split; [exact Hnn|]. split.
    + intros lo ->. apply Rltb_true. exact Hlo.
    + intros hi ->. apply Rltb_true. exact Hhi.
Qed.

(** X20.  [get_freq_centroid] applied to what [fft] returns for the band
    [(lower, upper)], when some magnitude is not zero: the centroid is a
    finite, non-negative frequency inside the band. *)
Theorem centroid_of_band_limited_spectrum :
  forall (dt : R) (y : signal) (lower upper : R) (w z : list R),
    fft dt y (Some lower) (Some upper) = Ok (w, z) ->
    Rsum z <> 0 ->
    exists v,
      get_freq_centroid w z = Ok (Fin v) /\ 0 <= v /\ lower <= v <= upper.
Proof.
  intros dt y lower upper w z H Hsum.
  destruct (fft_output_facts dt y _ _ w z H) as (Hlen & Hz & Hw).
  destruct (centroid_bounds w z (Rmax 0 lower) upper Hlen Hz Hsum)
    as (v & Hv & Hlo & Hhi).
  - eapply Forall_impl; [|exact Hw]. cbv beta. intros f (H0 & Hl & Hu).
    specialize (Hl lower eq_refl). specialize (Hu upper eq_refl).
    split; [apply Rmax_lub; lra | lra].
  - exists v. split; [exact Hv|].
    pose proof (Rmax_l 0 lower). pose proof (Rmax_r 0 lower).
    repeat split; lra.
Qed.

Lemma centroid_of_band_limited_spectrum_witness :
  exists v, get_freq_centroid [0] [1] = Ok (Fin v)
            /\ 0 <= v /\ -1 <= v <= 1.
Proof.
  apply (centroid_of_band_limited_spectrum 1 [1] (-1) 1 [0] [1] fft_impulse).
  simpl. lra.
Defined.



End CentroidFacts.

(** * Further properties: the inputs [wave2vec] accepts *)

Section Wave2vecInputs.
Local Open Scope R_scope.




End Wave2vecInputs.

(** * Further properties: what a run of [wave2vec] implies *)

Section Wave2vecRuns.
Local Open Scope R_scope.

Lemma fft_Ok_inputs (dt : R) (y : signal) (low_pass high_pass : option R)
    (w z : list R) :
  fft dt y low_pass high_pass = Ok (w, z) -> y <> [] /\ dt <> 0.
Proof.
  intros H.
  assert (Hy : y <> []) by (intros ->; discriminate H).
  split; [exact Hy|].
  intros ->. unfold fft in H. rewrite (np_abs_fft_full 0 y Hy) in H.
  cbn [bind] in H. unfold np_fftfreq in H. rewrite Rmult_0_r in H.
  destruct (Req_dec_T 0 0) as [_|E]; [discriminate H | congruence].
Qed.

(** The stages a completed loop has gone through. *)
Lemma wave2vec_integrate_inv (dt : R) (waveform : signal) (lower upper : Q)
    (dims : Z) (FFT_units : Q) (upsample : Z) (s : locals) :
  wave2vec_integrate dt waveform lower upper dims FFT_units upsample = Ok s ->
  exists (w z xs : list R) (d0 : Q),
    fft dt waveform (Some (Q2R lower)) (Some (Q2R upper)) = Ok (w, z)
    /\ w <> []
    /\ length xs = Z.to_nat upsample
    /\ (2 <= upsample)%Z /\ dims <> 0%Z
    /\ for_each
         (wave2vec_body
            (map (interp_at (combine (map (fun f => f / Q2R FFT_units) w) z))
                 xs)
            lower FFT_units)
         (seq 0 (Z.to_nat dims))
         (mkLocals [] [] None d0 (Z.quot upsample dims))
       = Ok s.
Proof.
  unfold wave2vec_integrate. intros H.
  apply bind_Ok_inv in H. destruct H as ([w z] & Hfft & H).
  apply bind_Ok_inv in H. destruct H as (grid & Hgrid & H).
  apply bind_Ok_inv in H. destruct H as (uz & Huz & H).
  apply bind_Ok_inv in H. destruct H as (w1 & Hw1 & H).
  apply bind_Ok_inv in H. destruct H as (w0 & Hw0 & H).
  apply bind_Ok_inv in H. destruct H as (width & Hwidth & H).
  cbn [fst snd] in *.
  destruct (np_linspace_step _ _ _ _ _ _ _ Hgrid Hw1 Hw0) as (Hup & _).
  destruct (np_linspace_length _ _ _ _ Hgrid) as [_ Hglen].
  destruct (dims =? 0)%Z eqn:Ed; [discriminate|].
  apply Z.eqb_neq in Ed. apply Ok_inj in Hwidth. subst width.
  unfold np_interp in Huz.
  destruct (map (fun f => f / Q2R FFT_units) w) as [|x0 xp] eqn:Exp;
    [discriminate|].
  destruct (length z =? length (x0 :: xp))%nat; [|discriminate].
  apply Ok_inj in Huz. subst uz.
  exists w, z, (map Q2R (map (fun f => fdiv f FFT_units) grid)), (fsub w1 w0).
  split; [exact Hfft|].
  split; [intros ->; discriminate Exp|].
  split; [rewrite !length_map; exact Hglen|].
  split; [exact Hup|]. split; [exact Ed|].
  rewrite Exp. rewrite !length_map, Hglen, Z2Nat.id in H by lia. exact H.
Qed.

Lemma wave2vec_loop_width_pos (upsampled_z : list R) (lower FFT_units : Q)
    (m : nat) (s s' : locals) :
  for_each (wave2vec_body upsampled_z lower FFT_units) (seq 0 (S m)) s = Ok s' ->
  (1 <= interval_width s)%Z.
Proof.
  cbn [seq for_each]. intros H.
  apply bind_Ok_inv in H. destruct H as (s1 & Hbody & _).
  unfold wave2vec_body in Hbody.
  apply bind_Ok_inv in Hbody. destruct Hbody as (mass & Hmass & _).
  change (Z.of_nat 0) with 0%Z in Hmass.
  rewrite Z.mul_0_l, Z.add_0_l, Z.mul_1_l in Hmass.
  destruct (Z_lt_le_dec (interval_width s) 1) as [Hlt|Hle]; [|exact Hle].
  exfalso. replace (Z.to_nat (interval_width s)) with 0%nat in Hmass by lia.
  discriminate Hmass.
Qed.

(** X23.  [wave2vec] returns only for a non-empty waveform, a non-zero
    spacing and a non-zero [FFT_units], with [lower < upper], a transform
    frequency that is non-negative and strictly inside the band, at least two
    grid points and [0 < dims <= upsample]. *)
Theorem wave2vec_returns_only_if :
  forall (dt : R) (waveform : signal) (lower upper : Q) (dims : Z)
         (FFT_units : Q) (upsample : Z) (r : list npfloat * list Q * Q),
    wave2vec dt waveform lower upper dims FFT_units upsample = Ok r ->
    waveform <> [] /\ dt <> 0 /\ ~ (FFT_units == 0)%Q /\ (lower < upper)%Q
    /\ (2 <= upsample)%Z /\ (0 < dims <= upsample)%Z
    /\ exists w z f,
         fft dt waveform (Some (Q2R lower)) (Some (Q2R upper)) = Ok (w, z)
         /\ In f w /\ 0 <= f /\ Q2R lower < f < Q2R upper.
Proof.
  intros dt y lower upper dims F upsample r H.
  unfold wave2vec in H. apply bind_Ok_inv in H. destruct H as (s & Hs & Hf).
  pose proof (wave2vec_needs_positive_dims _ _ _ _ _ _ _ _ _ Hs Hf) as Hd.
  destruct (wave2vec_integrate_shape _ _ _ _ _ _ _ _ Hs)
    as (_ & _ & _ & _ & _ & _ & _ & HF).
  destruct (wave2vec_integrate_inv _ _ _ _ _ _ _ _ Hs)
    as (w & z & xs & d0 & Hfft & Hw & Hxs & Hup & _ & Hloop).
  destruct (fft_Ok_inputs _ _ _ _ _ _ Hfft) as [Hy Hdt].
  destruct (fft_output_facts _ _ _ _ _ _ Hfft) as (_ & _ & Hband).
  destruct w as [|f w]; [congruence|].
  inversion Hband as [|? ? (Hf0 & Hlo & Hhi) _]; subst.
  specialize (Hlo (Q2R lower) eq_refl). specialize (Hhi (Q2R upper) eq_refl).
  destruct (Z.to_nat dims) as [|m] eqn:Em; [lia|].
  apply wave2vec_loop_width_pos in Hloop. cbn [interval_width] in Hloop.
  assert (Hdu : (dims <= upsample)%Z).
  { destruct (Z_lt_le_dec upsample dims) as [Hlt|Hle]; [|exact Hle].
    rewrite Z.quot_small in Hloop by lia. lia. }
  split; [exact Hy|]. split; [exact Hdt|].
  split; [apply HF; exact Hd|].
  split; [apply Rlt_Qlt; lra|].
  split; [exact Hup|]. split; [lia|].
  exists (f :: w), z, f. repeat split; try assumption; try lra.
  left. reflexivity.
Qed.

Lemma wave2vec_returns_only_if_witness :
  [1] <> [] /\ 1 <> 0 /\ ~ (1 == 0)%Q /\ (-1 < 1)%Q
  /\ (2 <= 3)%Z /\ (0 < 1 <= 3)%Z
  /\ exists w z f,
       fft 1 [1] (Some (Q2R (-1))) (Some (Q2R 1)) = Ok (w, z)
       /\ In f w /\ 0 <= f /\ Q2R (-1) < f < Q2R 1.
Proof.
  apply (wave2vec_returns_only_if 1 [1] (-1) 1 1 1 3
           ([Fin 1], [(-1)%Q], 3%Q) wave2vec_impulse).
Defined.

End Wave2vecRuns.

(** * Further properties: the feature vector *)

Section FeatureVectorFacts.
Local Open Scope R_scope.

Lemma simps_single (x : R) : simps [x] = Ok 0.
Proof. reflexivity. Qed.

Lemma py_slice_single (l : list R) (a : nat) :
  (a < length l)%nat -> exists x, py_slice l a (a + 1) = [x].
Proof.
  intros Ha.
  assert (Hlen : length (py_slice l a (a + 1)) = 1%nat)
    by (rewrite py_slice_length by lia; lia).
  destruct (py_slice l a (a + 1)) as [|x [|x' r]]; try discriminate Hlen.
  exists x. reflexivity.
Qed.

Lemma wave2vec_loop_unit_width (upsampled_z : list R) (lower FFT_units : Q) :
  forall (m a : nat) (s s' : locals),
    interval_width s = 1%Z ->
    (a + m <= length upsampled_z)%nat ->
    for_each (wave2vec_body upsampled_z lower FFT_units) (seq a m) s = Ok s' ->
    feature_vector s' = feature_vector s ++ repeat 0 m.
Proof.
  induction m as [|m IH]; intros a s s' Hw Hfit H; cbn [seq for_each] in H.
  - apply Ok_inj in H. subst s'. cbn [repeat]. rewrite app_nil_r. reflexivity.
  - apply bind_Ok_inv in H. destruct H as (s1 & Hbody & Hrest).
    unfold wave2vec_body in Hbody. rewrite Hw in Hbody.
    rewrite !Z.mul_1_r in Hbody.
    replace (Z.to_nat (Z.of_nat a)) with a in Hbody by lia.
    replace (Z.to_nat (Z.of_nat a + 1)) with (a + 1)%nat in Hbody by lia.
    destruct (py_slice_single upsampled_z a ltac:(lia)) as [x Hx].
    rewrite Hx, simps_single in Hbody. cbn [bind] in Hbody.
    apply bind_Ok_inv in Hbody. destruct Hbody as (lo & _ & Hbody).
    apply Ok_inj in Hbody. subst s1.
    apply IH in Hrest; cbn [interval_width feature_vector] in *;
      [|reflexivity | lia].
    rewrite Hrest, <- app_assoc. reflexivity.
Qed.

Lemma Rsum_repeat_zero (n : nat) : Rsum (repeat 0 n) = 0.
Proof. induction n as [|n IH]; simpl; [reflexivity|]. rewrite IH. ring. Qed.

(** X25.  With more than [upsample / 2] windows every window holds one grid
    point, Simpson's rule gives mass 0 for each, and the normalisation divides
    0 by 0: whenever [wave2vec] returns with [upsample < 2 * dims], every
    entry of the feature vector is NaN. *)
Theorem wave2vec_one_sample_windows :
  forall (dt : R) (waveform : signal) (lower upper : Q) (dims : Z)
         (FFT_units : Q) (upsample : Z)
         (fv : list npfloat) (edges : list Q) (spacing : Q),
    (upsample < 2 * dims)%Z ->
    wave2vec dt waveform lower upper dims FFT_units upsample
      = Ok (fv, edges, spacing) ->
    fv = repeat NaN (Z.to_nat dims).
Proof.
  intros dt y lower upper dims F upsample fv edges spacing Hbig H.
  unfold wave2vec in H. apply bind_Ok_inv in H. destruct H as (s & Hs & Hf).
  pose proof (wave2vec_needs_positive_dims _ _ _ _ _ _ _ _ _ Hs Hf) as Hd.
  destruct (wave2vec_integrate_inv _ _ _ _ _ _ _ _ Hs)
    as (w & z & xs & d0 & _ & _ & Hxs & Hup & _ & Hloop).
  assert (Hq : (1 <= Z.quot upsample dims)%Z).
  { destruct (Z.to_nat dims) as [|m] eqn:Em; [lia|].
    apply wave2vec_loop_width_pos in Hloop. exact Hloop. }
  assert (Hdu : (dims <= upsample)%Z).
  { destruct (Z_lt_le_dec upsample dims) as [Hlt|Hle]; [|exact Hle].
    rewrite Z.quot_small in Hq by lia. lia. }
  assert (Hone : Z.quot upsample dims = 1%Z).
  { rewrite Z.quot_div_nonneg in * by lia.
    pose proof (Z.mul_div_le upsample dims Hd).
    pose proof (Z.mul_succ_div_gt upsample dims Hd). nia. }
  rewrite Hone in Hloop.
  apply wave2vec_loop_unit_width in Hloop;
    [|reflexivity | rewrite length_map, Hxs; lia].
  cbn [feature_vector app] in Hloop.
  rewrite (wave2vec_finish_check _ _ _ _ _ _ _ _ Hs Hd) in Hf.
  destruct (float64_gt _ _); [discriminate|].
  apply Ok_inj in Hf. inversion Hf as [[Hfv He Hsp]].
  rewrite Hloop, Rsum_repeat_zero, map_repeat. f_equal.
  unfold np_div. destruct (Req_dec_T 0 0) as [_|E]; [reflexivity | congruence].
Qed.

End FeatureVectorFacts.

Section FeatureVectorMore.
Local Open Scope R_scope.

Lemma wave2vec_one_sample_windows_witness :
  exists fv edges spacing,
    wave2vec 1 [1] (-1) 1 3 1 3 = Ok (fv, edges, spacing)
    /\ fv = repeat NaN 3.
Proof.
  pose proof (wave2vec_integrate_impulse 3 3 ltac:(lia) ltac:(lia)) as Hs.
  assert (Hgap : float64_gt (coverage_gap (-1) 1 3 1 3) (binary64 (1 # 100))
                 = false) by (vm_compute; reflexivity).
  assert (Hrun : exists fv edges spacing,
            wave2vec 1 [1] (-1) 1 3 1 3 = Ok (fv, edges, spacing)).
  { unfold wave2vec. rewrite Hs. cbn [bind].
    rewrite (wave2vec_finish_check _ _ _ _ _ _ _ _ Hs) by lia.
    rewrite Hgap. eexists. eexists. eexists. reflexivity. }
  destruct Hrun as (fv & edges & spacing & Hrun).
  exists fv, edges, spacing. split; [exact Hrun|].
  apply (wave2vec_one_sample_windows 1 [1] (-1) 1 3 1 3 _ _ _ ltac:(lia) Hrun).
Defined.

Lemma Forall_firstn {A : Type} (P : A -> Prop) (n : nat) :
  forall l : list A, Forall P l -> Forall P (firstn n l).
Proof.
  induction n as [|n IH]; intros l H; [constructor|].
  destruct H as [|x l Hx Hl]; [constructor|].
  cbn [firstn]. constructor; [exact Hx | apply IH; exact Hl].
Qed.

Lemma Forall_skipn {A : Type} (P : A -> Prop) (n : nat) :
  forall l : list A, Forall P l -> Forall P (skipn n l).
Proof.
  induction n as [|n IH]; intros l H; [exact H|].
  destruct H as [|x l Hx Hl]; [constructor|].
  cbn [skipn]. apply IH. exact Hl.
Qed.

Lemma nth_nonneg (l : list R) (k : nat) :
  Forall (fun m => 0 <= m) l -> 0 <= nth k l 0.
Proof.
  intros H. revert k. induction H as [|x l Hx _ IH]; intros [|k]; simpl;
    try lra; try assumption. apply IH.
Qed.

Lemma basic_simps_nonneg_bounded :
  forall (n : nat) (y : list R),
    (length y <= n)%nat -> Forall (fun m => 0 <= m) y -> 0 <= basic_simps y.
Proof.
  induction n as [|n IH]; intros y Hn Hy.
  - destruct y; [simpl; lra | simpl in Hn; lia].
  - destruct y as [|a [|b [|d rest]]]; try (simpl; lra).
    rewrite basic_simps_step.
    inversion Hy as [|? ? Ha Hy1]; subst.
    inversion Hy1 as [|? ? Hb Hy2]; subst.
    inversion Hy2 as [|? ? Hd _]; subst.
    assert (0 <= basic_simps (d :: rest))
      by (apply IH; [simpl in Hn |- *; lia | exact Hy2]).
    lra.
Qed.

Lemma simps_nonneg (y : list R) (r : R) :
  Forall (fun m => 0 <= m) y -> simps y = Ok r -> 0 <= r.
Proof.
  intros Hy H. destruct y as [|a y]; [discriminate|].
  unfold simps in H.
  pose proof (basic_simps_nonneg_bounded _ (a :: y) (le_n _) Hy) as H1.
  destruct (Nat.even (length (a :: y))); apply Ok_inj in H; subst r;
    [|exact H1].
  assert (Htl : Forall (fun m => 0 <= m) (tl (a :: y)))
    by (inversion Hy; assumption).
  pose proof (basic_simps_nonneg_bounded _ (tl (a :: y)) (le_n _) Htl) as H2.
  pose proof (nth_nonneg (a :: y) (length (a :: y) - 1) Hy).
  pose proof (nth_nonneg (a :: y) (length (a :: y) - 2) Hy).
  pose proof (nth_nonneg (a :: y) 1 Hy).
  pose proof (nth_nonneg (a :: y) 0 Hy).
  lra.
Qed.

Lemma interp_scan_nonneg (x : R) :
  forall (rest : list (R * R)) (x0 f0 : R),
    x0 <= x -> 0 <= f0 ->
    StronglySorted Rlt (x0 :: map fst rest) ->
    Forall (fun p => 0 <= snd p) rest ->
    0 <= interp_scan x x0 f0 rest.
Proof.
  induction rest as [|[x1 f1] rest IH]; intros x0 f0 Hx Hf0 Hs Hf;
    cbn [interp_scan]; [exact Hf0|].
  inversion Hs as [|? ? Hs' Hlt]; subst. cbn [map fst] in *.
  inversion Hlt as [|? ? Hx01 _]; subst.
  inversion Hf as [|? ? Hf1 Hf']; subst. cbn [snd] in Hf1.
  destruct (Rlt_dec x x1) as [Hx1|Hx1].
  - replace (f0 + (f1 - f0) / (x1 - x0) * (x - x0))
      with ((f0 * (x1 - x) + f1 * (x - x0)) / (x1 - x0)) by (field; lra).
    apply Rmult_le_pos; [nra|]. apply Rlt_le. apply Rinv_0_lt_compat. lra.
  - apply IH; [lra | exact Hf1 | exact Hs' | exact Hf'].
Qed.

Lemma interp_at_nonneg (pts : list (R * R)) (x : R) :
  StronglySorted Rlt (map fst pts) -> Forall (fun p => 0 <= snd p) pts ->
  0 <= interp_at pts x.
Proof.
  intros Hs Hf. destruct pts as [|[x0 f0] rest]; [simpl; lra|].
  cbn [interp_at]. inversion Hf as [|? ? Hf0 Hf']; subst. cbn [snd] in Hf0.
  destruct (Rle_dec x x0); [exact Hf0|].
  apply interp_scan_nonneg; [lra | exact Hf0 | exact Hs | exact Hf'].
Qed.

Lemma ascending_divided (F : R) (w : list R) :
  0 < F -> StronglySorted Rlt w ->
  StronglySorted Rlt (map (fun f => f / F) w).
Proof.
  intros HF. induction 1 as [|x w _ IH Hx]; cbn [map]; constructor;
    [exact IH|].
  apply Forall_forall. intros g Hg. apply in_map_iff in Hg.
  destruct Hg as (f & <- & Hf). rewrite Forall_forall in Hx.
  specialize (Hx f Hf). unfold Rdiv. apply Rmult_lt_compat_r;
    [apply Rinv_0_lt_compat; exact HF | exact Hx].
Qed.

Lemma wave2vec_loop_nonneg (upsampled_z : list R) (lower FFT_units : Q) :
  Forall (fun m => 0 <= m) upsampled_z ->
  forall (idx : list nat) (s s' : locals),
    Forall (fun m => 0 <= m) (feature_vector s) ->
    for_each (wave2vec_body upsampled_z lower FFT_units) idx s = Ok s' ->
    Forall (fun m => 0 <= m) (feature_vector s').
Proof.
  intros Huz. induction idx as [|i idx IH]; intros s s' Hs H;
    cbn [for_each] in H.
  - apply Ok_inj in H. subst s'. exact Hs.
  - apply bind_Ok_inv in H. destruct H as (s1 & Hbody & Hrest).
    unfold wave2vec_body in Hbody.
    apply bind_Ok_inv in Hbody. destruct Hbody as (mass & Hmass & Hbody).
    apply bind_Ok_inv in Hbody. destruct Hbody as (lo & _ & Hbody).
    apply Ok_inj in Hbody. subst s1.
    refine (IH _ s' _ Hrest).
    cbn [feature_vector]. apply Forall_app. split; [exact Hs|].
    constructor; [|constructor].
    apply (simps_nonneg _ _ (Forall_skipn _ _ _ (Forall_firstn _ _ _ Huz))
             Hmass).
Qed.

Lemma Rsum_upper (l : list R) (m : R) :
  Forall (fun x => 0 <= x) l -> In m l -> m <= Rsum l.
Proof.
  induction 1 as [|x l Hx Hl IH]; intros Hin; [destruct Hin|].
  simpl. pose proof (Rsum_nonneg l Hl). destruct Hin as [<-|Hin]; [lra|].
  specialize (IH Hin). lra.
Qed.

(** X26.  For a positive sample spacing and a positive [FFT_units], when
    [wave2vec] returns and the sum of the masses is not zero, the feature
    vector has exactly [dims] entries and each of them is a finite number
    between 0 and 1. *)
Theorem wave2vec_feature_vector_entries :
  forall (dt : R) (waveform : signal) (lower upper : Q) (dims : Z)
         (FFT_units : Q) (upsample : Z)
         (fv : list npfloat) (edges : list Q) (spacing : Q) (total : R),
    0 < dt -> (0 < FFT_units)%Q ->
    wave2vec dt waveform lower upper dims FFT_units upsample
      = Ok (fv, edges, spacing) ->
    mass_sum dt waveform lower upper dims FFT_units upsample = Ok total ->
    total <> 0 ->
    Z.of_nat (length fv) = dims
    /\ exists entries,
         fv = map Fin entries /\ Forall (fun p => 0 <= p <= 1) entries.
Proof.
  intros dt y lower upper dims F upsample fv edges spacing total
    Hdt HF Hw Hm Ht.
  unfold wave2vec in Hw. unfold mass_sum in Hm.
  apply bind_Ok_inv in Hw. destruct Hw as (s & Hs & Hf).
  rewrite Hs in Hm. cbn [bind] in Hm. apply Ok_inj in Hm.
  pose proof (wave2vec_needs_positive_dims _ _ _ _ _ _ _ _ _ Hs Hf) as Hd.
  destruct (wave2vec_integrate_shape _ _ _ _ _ _ _ _ Hs)
    as (_ & _ & _ & _ & _ & Hlen & _ & _).
  destruct (wave2vec_integrate_inv _ _ _ _ _ _ _ _ Hs)
    as (w & z & xs & d0 & Hfft & _ & _ & _ & _ & Hloop).
  destruct (fft_Ok_inputs _ _ _ _ _ _ Hfft) as [Hy _].
  destruct (fft_output_facts _ _ _ _ _ _ Hfft) as (Hwz & Hz & _).
  assert (Hasc : StronglySorted Rlt w).
  { rewrite (fft_pairs dt y _ _ Hdt Hy) in Hfft. apply Ok_inj in Hfft.
    inversion Hfft as [[Hw' Hz']]. apply kept_frequencies_ascend; assumption. }
  assert (HFR : 0 < Q2R F)
    by (rewrite <- Q2R_zero; apply Qlt_Rlt; exact HF).
  assert (Huz : Forall (fun m => 0 <= m)
                  (map (interp_at (combine (map (fun f => f / Q2R F) w) z))
                       xs)).
  { apply Forall_forall. intros m Hin. apply in_map_iff in Hin.
    destruct Hin as (x & <- & _). apply interp_at_nonneg.
    - rewrite map_fst_combine_le by (rewrite length_map, Hwz; lia).
      apply ascending_divided; assumption.
    - apply Forall_forall. intros [f m] Hp. apply in_combine_r in Hp.
      rewrite Forall_forall in Hz. apply Hz. exact Hp. }
  assert (Hfv : Forall (fun m => 0 <= m) (feature_vector s)).
  { apply (wave2vec_loop_nonneg _ lower F Huz _ _ s) in Hloop;
      [exact Hloop | constructor]. }
  rewrite (wave2vec_finish_check _ _ _ _ _ _ _ _ Hs Hd) in Hf.
  destruct (float64_gt _ _); [discriminate|].
  apply Ok_inj in Hf. inversion Hf as [[Hfv' He Hsp]]. clear Hf.
  split; [rewrite length_map, Hlen; lia|].
  rewrite Hm. exists (map (fun m => m / total) (feature_vector s)).
  split; [apply np_div_finite; exact Ht|].
  pose proof (Rsum_nonneg _ Hfv) as H0. rewrite Hm in H0.
  assert (Hpos : 0 < total) by lra.
  apply Forall_forall. intros p Hp. apply in_map_iff in Hp.
  destruct Hp as (m & <- & Hin).
  pose proof (Rsum_upper _ m Hfv Hin) as Hub. rewrite Hm in Hub.
  rewrite Forall_forall in Hfv. specialize (Hfv m Hin).
  split.
  - apply Rmult_le_pos; [exact Hfv|]. apply Rlt_le.
    apply Rinv_0_lt_compat. exact Hpos.
  - apply (Rmult_le_reg_r total); [exact Hpos|].
    unfold Rdiv. rewrite Rmult_assoc, Rinv_l, Rmult_1_r, Rmult_1_l by lra.
    exact Hub.
Qed.

Lemma wave2vec_feature_vector_entries_witness :
  Z.of_nat (length [Fin 1]) = 1%Z
  /\ exists entries,
       [Fin 1] = map Fin entries /\ Forall (fun p => 0 <= p <= 1) entries.
Proof.
  apply (wave2vec_feature_vector_entries 1 [1] (-1) 1 1 1 3
           [Fin 1] [(-1)%Q] 3%Q 2
           ltac:(lra) ltac:(reflexivity) wave2vec_impulse mass_sum_impulse
           ltac:(lra)).
Defined.

End FeatureVectorMore.
